(** * csv2json: the conversion engine, embedded from the Go source

    The repository holds several generations of the same converter:
    - package [converter], src/unnamed/part_002 (Options, Execute,
      Instrument, parseColumnNames, buildRecords, csv2Json, getCsvReader,
      fieldsToRecord);
    - package [main], version 0.3.0 in src/unnamed/part_001 and version
      0.2.0 in src/unnamed/part_000 (conversionOptions, csv2Json,
      getCsvReader, fieldsToRecord), the same text but for comments.
    The standard library they call (unicode/utf8, bufio, encoding/csv,
    encoding/json) is modelled as far as the converter reaches it.

    Go strings and byte slices are sequences of bytes: a Go [string] is a Rocq
    [string], a [[]byte] is a [list ascii].  A Go [map[string]string] is a
    [gmap string string].  Functions that can panic, terminate the process
    or loop return an [exec]. *)

From Stdlib Require Import ZArith Lia Ascii String.
From stdpp Require Import gmap strings list fin_maps sorting.

Open Scope string_scope.
Open Scope list_scope.

(** ** Results of running Go code *)

(** Run-time panics the converter can raise. *)
Inductive panic : Type :=
  | IndexOutOfRange (index : nat) (len : nat).

(** Kinds of [csv.ParseError]. *)
Inductive csv_err : Type :=
  | ErrBareQuote
  | ErrQuote
  | ErrFieldCount.

(** Go [error] values seen by the converter.  [ErrOther] stands for any
    error of the underlying reader or writer other than [io.EOF].  A
    [csv.ParseError] carries the line where the record starts, the line and
    the column of the error (as Go 1.17 and later count them: byte columns
    from 1) and the kind. *)
Inductive error : Type :=
  | EOF
  | ErrOther (msg : string)
  | ErrInvalidUnreadRune
  | ParseError (StartLine Line Column : nat) (Err : csv_err).

(** What a call does: it returns, it panics, it terminates the process
    ([log.Fatal]: the error is logged and the process exits with status 1),
    or the fuel given to a loop ran out. *)
Inductive exec (A : Type) : Type :=
  | Returns (a : A)
  | Panics (p : panic)
  | Exits (logged : error)
  | Timeout.
Arguments Returns {A} a.
Arguments Panics {A} p.
Arguments Exits {A} logged.
Arguments Timeout {A}.

#[global] Instance exec_ret : MRet exec := fun A a => Returns a.
#[global] Instance exec_bind : MBind exec := fun A B k m =>
  match m with
  | Returns a => k a
  | Panics p => Panics p
  | Exits e => Exits e
  | Timeout => Timeout
  end.

#[global] Instance csv_err_eq_dec : EqDecision csv_err.
Proof. solve_decision. Defined.
#[global] Instance error_eq_dec : EqDecision error.
Proof. solve_decision. Defined.

(** [s[i]] on a slice: a run-time panic when [i] is out of range. *)
Definition index {A : Type} (s : list A) (i : nat) : exec A :=
  match s !! i with
  | Some x => Returns x
  | None => Panics (IndexOutOfRange i (length s))
  end.

(** ** fieldsToRecord (the same body in every generation of the source)

<<
  rec := make(record, len(colNames))
  for i := range colNames {
      k, v := colNames[i], rowValues[i]
      rec[k] = v
  }
  return rec
>> *)
Fixpoint fieldsToRecord_range (colNames rowValues : list string)
    (range : list nat) (rec : gmap string string) : exec (gmap string string) :=
  match range with
  | [] => Returns rec
  | i :: range' =>
      k ← index colNames i;
      v ← index rowValues i;
      fieldsToRecord_range colNames rowValues range' (<[k:=v]> rec)
  end.

Definition fieldsToRecord (colNames rowValues : list string) : exec (gmap string string) :=
  fieldsToRecord_range colNames rowValues (seq 0 (length colNames)) ∅.

(** The record builder in the words of the specification: for each column
    index [i] with [i < len(row)], set [record[columns[i]] = row[i]]; other
    indices are skipped. *)
Definition set_field (columns row : list string) (rec : gmap string string) (i : nat)
    : gmap string string :=
  match columns !! i, row !! i with
  | Some k, Some v => <[k:=v]> rec
  | _, _ => rec
  end.

Definition build_record (columns row : list string) : gmap string string :=
  foldl (set_field columns row) ∅ (seq 0 (length columns)).

(** ** unicode/utf8 (standard library, as far as the converter reaches it) *)
Module utf8.

Definition RuneError : Z := 0xFFFD.
Definition RuneSelf : Z := 0x80.

Definition byte_val (c : ascii) : Z := Z.of_N (N_of_ascii c).

(** The [first] table: for a leading byte, either one-byte ASCII, an
    invalid leading byte, or the sequence length together with the range
    accepted for the second byte. *)
Inductive first_info : Type :=
  | first_as
  | first_xx
  | first_seq (size : nat) (lo hi : Z).

Definition first (p0 : Z) : first_info :=
  if (p0 <? 0x80)%Z then first_as
  else if (p0 <? 0xC2)%Z then first_xx
  else if (p0 <? 0xE0)%Z then first_seq 2 0x80 0xBF
  else if (p0 =? 0xE0)%Z then first_seq 3 0xA0 0xBF
  else if (p0 <? 0xED)%Z then first_seq 3 0x80 0xBF
  else if (p0 =? 0xED)%Z then first_seq 3 0x80 0x9F
  else if (p0 <? 0xF0)%Z then first_seq 3 0x80 0xBF
  else if (p0 =? 0xF0)%Z then first_seq 4 0x90 0xBF
  else if (p0 <? 0xF4)%Z then first_seq 4 0x80 0xBF
  else if (p0 =? 0xF4)%Z then first_seq 4 0x80 0x8F
  else first_xx.

Definition locb : Z := 0x80.
Definition hicb : Z := 0xBF.
Definition maskx : Z := 0x3F.
Definition mask2 : Z := 0x1F.
Definition mask3 : Z := 0x0F.
Definition mask4 : Z := 0x07.

Definition rune2 (p0 b1 : Z) : Z :=
  Z.lor (Z.shiftl (Z.land p0 mask2) 6) (Z.land b1 maskx).
Definition rune3 (p0 b1 b2 : Z) : Z :=
  Z.lor (Z.lor (Z.shiftl (Z.land p0 mask3) 12) (Z.shiftl (Z.land b1 maskx) 6))
        (Z.land b2 maskx).
Definition rune4 (p0 b1 b2 b3 : Z) : Z :=
  Z.lor (Z.lor (Z.lor (Z.shiftl (Z.land p0 mask4) 18) (Z.shiftl (Z.land b1 maskx) 12))
               (Z.shiftl (Z.land b2 maskx) 6))
        (Z.land b3 maskx).

(** [DecodeRune p]: the first rune of [p] and its width in bytes;
    [(RuneError, 0)] on empty input, [(RuneError, 1)] on an invalid or
    truncated encoding. *)
Definition DecodeRune (p : list ascii) : Z * nat :=
  match p with
  | [] => (RuneError, 0)
  | c0 :: p1 =>
      let p0 := byte_val c0 in
      match first p0 with
      | first_as => (p0, 1)
      | first_xx => (RuneError, 1)
      | first_seq sz lo hi =>
          if (length p <? sz)%nat then (RuneError, 1) else
          match p1 with
          | [] => (RuneError, 1)
          | c1 :: p2 =>
              let b1 := byte_val c1 in
              if ((b1 <? lo) || (hi <? b1))%Z then (RuneError, 1)
              else if (sz <=? 2)%nat then (rune2 p0 b1, 2) else
              match p2 with
              | [] => (RuneError, 1)
              | c2 :: p3 =>
                  let b2 := byte_val c2 in
                  if ((b2 <? locb) || (hicb <? b2))%Z then (RuneError, 1)
                  else if (sz <=? 3)%nat then (rune3 p0 b1 b2, 3) else
                  match p3 with
                  | [] => (RuneError, 1)
                  | c3 :: _ =>
                      let b3 := byte_val c3 in
                      if ((b3 <? locb) || (hicb <? b3))%Z then (RuneError, 1)
                      else (rune4 p0 b1 b2 b3, 4)
                  end
              end
          end
      end
  end.

End utf8.

(** ** io: readers and writers handed to the converter *)
Module io.

(** An [io.Reader]: the bytes it will deliver, then the error every
    further [Read] reports ([EOF] for a file or buffer read to its end,
    another error for a failing source). *)
Record Reader : Type := mkReader {
  content : list ascii;
  at_end : error;
}.

(** An [io.Writer]: the bytes written so far; a [broken] writer fails
    every [Write] with its error and takes nothing. *)
Record Writer : Type := mkWriter {
  written : list ascii;
  broken : option error;
}.

Definition Write (w : Writer) (p : list ascii) : option error * Writer :=
  match broken w with
  | Some e => (Some e, w)
  | None => (None, {| written := written w ++ p; broken := None |})
  end.

End io.

(** ** bufio.Reader (standard library)

    The buffer is not bounded in this model: [ReadSlice] returns the whole
    line, which is what [csv.Reader.readLine] reassembles from
    [ErrBufferFull] pieces. *)
Module bufio.

Record Reader : Type := mkReader {
  unread : list ascii;       (* bytes not yet consumed *)
  rd_err : error;            (* what the source reports after them *)
  lastRune : list ascii;     (* the bytes of the rune just read *)
  lastRuneSize : Z;          (* -1: UnreadRune not allowed *)
}.

Definition NewReader (rd : io.Reader) : Reader :=
  {| unread := io.content rd; rd_err := io.at_end rd;
     lastRune := []; lastRuneSize := -1 |}.

(** [ReadRune]: rune, size, error. *)
Definition ReadRune (b : Reader) : (Z * nat * option error) * Reader :=
  match unread b with
  | [] => ((0%Z, 0, Some (rd_err b)),
           {| unread := []; rd_err := rd_err b; lastRune := []; lastRuneSize := -1 |})
  | _ :: _ =>
      let '(r, size) := utf8.DecodeRune (unread b) in
      ((r, size, None),
       {| unread := drop size (unread b); rd_err := rd_err b;
          lastRune := take size (unread b); lastRuneSize := Z.of_nat size |})
  end.

Definition UnreadRune (b : Reader) : option error * Reader :=
  if (lastRuneSize b <? 0)%Z then (Some ErrInvalidUnreadRune, b)
  else (None, {| unread := lastRune b ++ unread b; rd_err := rd_err b;
                 lastRune := []; lastRuneSize := -1 |}).

(** Split [s] after the first occurrence of [delim]. *)
Fixpoint split_after (delim : ascii) (s : list ascii) : option (list ascii * list ascii) :=
  match s with
  | [] => None
  | c :: s' =>
      if decide (c = delim) then Some ([c], s')
      else match split_after delim s' with
           | Some (l, rest) => Some (c :: l, rest)
           | None => None
           end
  end.

(** [ReadSlice delim]: the bytes up to and including [delim]; when the
    source ends first, what is left together with the source's error. *)
Definition ReadSlice (delim : ascii) (b : Reader) : (list ascii * option error) * Reader :=
  match split_after delim (unread b) with
  | Some (line, rest) =>
      ((line, None),
       {| unread := rest; rd_err := rd_err b; lastRune := []; lastRuneSize := -1 |})
  | None =>
      ((unread b, Some (rd_err b)),
       {| unread := []; rd_err := rd_err b; lastRune := []; lastRuneSize := -1 |})
  end.

End bufio.

(** ** encoding/csv Reader (standard library)

    With the settings [csv.NewReader] gives and the converter never changes:
    [Comma = ','], no [Comment], [LazyQuotes], [TrimLeadingSpace] and
    [ReuseRecord] off. *)
Module csv.

Definition LF : ascii := "010"%char.
Definition CR : ascii := "013"%char.
Definition Quote : ascii := "034"%char.
Definition Comma : ascii := ","%char.

Record Reader : Type := mkReader {
  r : bufio.Reader;
  numLine : nat;
  FieldsPerRecord : Z;   (* 0: taken from the first record; < 0: no check *)
}.

Definition NewReader (br : bufio.Reader) : Reader :=
  {| r := br; numLine := 0; FieldsPerRecord := 0 |}.

Definition set_FieldsPerRecord (n : Z) (rd : Reader) : Reader :=
  {| r := r rd; numLine := numLine rd; FieldsPerRecord := n |}.

(** [lengthNL b]: 1 when [b] ends in a line feed, else 0. *)
Definition lengthNL (b : list ascii) : nat :=
  if decide (last b = Some LF) then 1 else 0.

Definition nextRune (b : list ascii) : Z := fst (utf8.DecodeRune b).

(** [bytes.IndexByte]: index of the first [c] in [s]. *)
Fixpoint IndexByte (s : list ascii) (c : ascii) : option nat :=
  match s with
  | [] => None
  | x :: s' => if decide (x = c) then Some 0 else S <$> IndexByte s' c
  end.

(** A final line without line feed loses a trailing carriage return. *)
Definition dropCR (line : list ascii) : list ascii :=
  if decide (last line = Some CR) then take (length line - 1) line else line.

(** A trailing CR LF becomes LF. *)
Definition normalizeNL (line : list ascii) : list ascii :=
  match reverse line with
  | c1 :: c2 :: _ =>
      if bool_decide (c2 = CR ∧ c1 = LF)
      then take (length line - 2) line ++ [LF]
      else line
  | _ => line
  end.

(** [readLine]: the next line with its line feed; reaching the end of
    the input after some bytes is not an error. *)
Definition readLine (rd : Reader) : (list ascii * option error) * Reader :=
  let '((line, err), br) := bufio.ReadSlice LF (r rd) in
  let readSize := length line in
  let '(line, err) :=
    if bool_decide (0 < readSize ∧ err = Some EOF)
    then (dropCR line, None)
    else (line, err) in
  let rd' := {| r := br; numLine := S (numLine rd);
                FieldsPerRecord := FieldsPerRecord rd |} in
  ((normalizeNL line, err), rd').

(** The variables of [readRecord] while it parses one record. *)
Record pstate : Type := mkPstate {
  rdr : Reader;
  line : list ascii;            (* rest of the current line *)
  errRead : option error;       (* error of the last readLine *)
  fields : list string;         (* fields completed so far *)
  cur : list ascii;             (* bytes of the quoted field in progress *)
  pos_line : nat;
  pos_col : nat;
}.

Definition advance (n : nat) (st : pstate) : pstate :=
  {| rdr := rdr st; line := drop n (line st); errRead := errRead st;
     fields := fields st; cur := cur st;
     pos_line := pos_line st; pos_col := pos_col st + n |}.

Definition append_cur (bs : list ascii) (st : pstate) : pstate :=
  {| rdr := rdr st; line := line st; errRead := errRead st;
     fields := fields st; cur := cur st ++ bs;
     pos_line := pos_line st; pos_col := pos_col st |}.

(** Close the field in progress: its bytes become the next field. *)
Definition end_field (st : pstate) : pstate :=
  {| rdr := rdr st; line := line st; errRead := errRead st;
     fields := fields st ++ [string_of_list_ascii (cur st)]; cur := [];
     pos_line := pos_line st; pos_col := pos_col st |}.

(** Inside a quoted field, at the end of a line: take the next line. *)
Definition next_line (st : pstate) : pstate :=
  let '((l, e), rd') := readLine (rdr st) in
  {| rdr := rd'; line := l;
     errRead := if decide (e = Some EOF) then None else e;
     fields := fields st; cur := cur st;
     pos_line := if decide (0 < length l) then S (pos_line st) else pos_line st;
     pos_col := if decide (0 < length l) then 1 else pos_col st + length (line st) |}.

(** The [parseField] loop of [readRecord] and, inside it, the loop over
    a quoted field.  Each turn consumes input, so fuel above the number
    of bytes left is never used up. *)
Fixpoint parseField (fuel : nat) (recLine : nat) (st : pstate)
    : option (pstate * option error) :=
  match fuel with
  | O => None
  | S fuel' =>
      match line st with
      | c :: _ =>
          if decide (c = Quote)
          then quotedField fuel' recLine (advance 1 st)
          else bareField fuel' recLine st
      | [] => bareField fuel' recLine st
      end
  end
with bareField (fuel : nat) (recLine : nat) (st : pstate)
    : option (pstate * option error) :=
  match fuel with
  | O => None
  | S fuel' =>
      let i := IndexByte (line st) Comma in
      let field :=
        match i with
        | Some i => take i (line st)
        | None => take (length (line st) - lengthNL (line st)) (line st)
        end in
      match IndexByte field Quote with
      | Some j =>
          Some (st, Some (ParseError recLine (numLine (rdr st)) (pos_col st + j) ErrBareQuote))
      | None =>
          let st := end_field (append_cur field st) in
          match i with
          | Some i => parseField fuel' recLine (advance (i + 1) st)
          | None => Some (st, None)
          end
      end
  end
with quotedField (fuel : nat) (recLine : nat) (st : pstate)
    : option (pstate * option error) :=
  match fuel with
  | O => None
  | S fuel' =>
      match IndexByte (line st) Quote with
      | Some i =>
          let st := advance (i + 1) (append_cur (take i (line st)) st) in
          let rn := nextRune (line st) in
          if decide (rn = utf8.byte_val Quote) then
            quotedField fuel' recLine (advance 1 (append_cur [Quote] st))
          else if decide (rn = utf8.byte_val Comma) then
            parseField fuel' recLine (end_field (advance 1 st))
          else if decide (lengthNL (line st) = length (line st)) then
            Some (end_field st, None)
          else
            Some (st, Some (ParseError recLine (numLine (rdr st)) (pos_col st - 1) ErrQuote))
      | None =>
          if decide (0 < length (line st)) then
            let st := append_cur (line st) st in
            match errRead st with
            | Some _ => Some (st, None)
            | None => quotedField fuel' recLine (next_line st)
            end
          else
            match errRead st with
            | None =>
                Some (st, Some (ParseError recLine (pos_line st) (pos_col st) ErrQuote))
            | Some _ => Some (end_field st, None)
            end
      end
  end.

(** The first loop of [readRecord]: read a line, skipping empty ones. *)
Fixpoint skipEmpty (fuel : nat) (rd : Reader)
    : option ((list ascii * option error) * Reader) :=
  match fuel with
  | O => None
  | S fuel' =>
      let '((l, e), rd') := readLine rd in
      if bool_decide (e = None ∧ length l = lengthNL l)
      then skipEmpty fuel' rd'
      else Some ((l, e), rd')
  end.

Definition readRecord (fuel : nat) (rd : Reader)
    : option ((list string * option error) * Reader) :=
  '((l, errRead0), rd1) ← skipEmpty fuel rd;
  if decide (errRead0 = Some EOF) then Some (([], Some EOF), rd1) else
  let recLine := numLine rd1 in
  let st0 := {| rdr := rd1; line := l; errRead := errRead0; fields := []; cur := [];
                pos_line := numLine rd1; pos_col := 1 |} in
  '(st, err) ← parseField fuel recLine st0;
  let err := match err with None => errRead st | Some _ => err end in
  let dst := fields st in
  let rd2 := rdr st in
  if (0 <? FieldsPerRecord rd2)%Z then
    if bool_decide (Z.of_nat (length dst) ≠ FieldsPerRecord rd2 ∧ err = None)
    then Some ((dst, Some (ParseError recLine recLine 1 ErrFieldCount)), rd2)
    else Some ((dst, err), rd2)
  else if (FieldsPerRecord rd2 =? 0)%Z then
    Some ((dst, err), set_FieldsPerRecord (Z.of_nat (length dst)) rd2)
  else Some ((dst, err), rd2).

(** Fuel that [readRecord] never exhausts (see [readRecord_fuel]). *)
Definition fuel_for (rd : Reader) : nat := 2 * length (bufio.unread (r rd)) + 2.

(** [Read]: the next record and the error, as Go returns them. *)
Definition Read (rd : Reader) : (list string * option error) * Reader :=
  match readRecord (fuel_for rd) rd with
  | Some res => res
  | None => (([], Some EOF), rd)
  end.

End csv.

(** ** encoding/json, for a slice of [map[string]string] (standard library)

    Strings are escaped as [Encoder] does by default (HTML escaping on,
    invalid UTF-8 replaced, the short escapes of Go 1.22 and later); the
    keys of a map are written in sorted order; [Encode] ends the document
    with a line feed. *)
Module json.

Definition backslash : ascii := "092"%char.

Definition hex (n : Z) : ascii :=
  default "0"%char (list_ascii_of_string "0123456789abcdef" !! Z.to_nat n).

(** [htmlSafeSet]: printable ASCII other than the quote, the backslash,
    and the characters escaped for HTML. *)
Definition htmlSafe (b : Z) : bool :=
  bool_decide ((0x20 ≤ b)%Z ∧ (b < 0x80)%Z ∧ b ∉ [34; 92; 60; 62; 38]%Z).

Definition escape (c : ascii) : list ascii :=
  let b := utf8.byte_val c in
  if bool_decide (b = 92 ∨ b = 34)%Z then [backslash; c]
  else if decide (b = 8)%Z then [backslash; "b"%char]
  else if decide (b = 12)%Z then [backslash; "f"%char]
  else if decide (b = 10)%Z then [backslash; "n"%char]
  else if decide (b = 13)%Z then [backslash; "r"%char]
  else if decide (b = 9)%Z then [backslash; "t"%char]
  else [backslash; "u"%char; "0"%char; "0"%char;
        hex (Z.shiftr b 4); hex (Z.land b 0xF)].

(** The loop of [appendString]; one turn per character, so fuel above
    the length of [src] is never used up. *)
Fixpoint appendString_loop (fuel : nat) (src : list ascii) : list ascii :=
  match fuel, src with
  | S fuel', c :: src' =>
      let b := utf8.byte_val c in
      if (b <? utf8.RuneSelf)%Z then
        (if htmlSafe b then [c] else escape c) ++ appendString_loop fuel' src'
      else
        let '(rn, size) := utf8.DecodeRune src in
        if bool_decide (rn = utf8.RuneError ∧ size = 1) then
          backslash :: list_ascii_of_string "ufffd" ++ appendString_loop fuel' (drop size src)
        else if bool_decide (rn = 0x2028 ∨ rn = 0x2029)%Z then
          backslash :: list_ascii_of_string "u202" ++ [hex (Z.land rn 0xF)]
            ++ appendString_loop fuel' (drop size src)
        else take size src ++ appendString_loop fuel' (drop size src)
  | _, _ => []
  end.

Definition appendString (s : string) : list ascii :=
  let src := list_ascii_of_string s in
  [csv.Quote] ++ appendString_loop (length src) src ++ [csv.Quote].

Fixpoint join (sep : list ascii) (parts : list (list ascii)) : list ascii :=
  match parts with
  | [] => []
  | [p] => p
  | p :: parts' => p ++ sep ++ join sep parts'
  end.

Definition key_le (a b : string * string) : Prop := String.leb a.1 b.1 = true.
#[global] Instance key_le_dec : RelDecision key_le.
Proof. intros a b. unfold key_le. apply _. Defined.

Definition marshal_map (m : gmap string string) : list ascii :=
  let entries := merge_sort key_le (map_to_list m) in
  ["{"%char]
    ++ join [","%char]
         (map (fun kv => appendString kv.1 ++ [":"%char] ++ appendString kv.2) entries)
    ++ ["}"%char].

(** [Marshal] of a non-nil slice of non-nil maps. *)
Definition Marshal (records : list (gmap string string)) : list ascii :=
  ["["%char] ++ join [","%char] (map marshal_map records) ++ ["]"%char].

(** [json.NewEncoder(w).Encode(records)]. *)
Definition Encode (w : io.Writer) (records : list (gmap string string))
    : option error * io.Writer :=
  io.Write w (Marshal records ++ [csv.LF]).

End json.

(** ** Diagnostics *)

(** The calls the converter makes on its loggers. *)
Inductive log_entry : Type :=
  | KitError (message : string) (err : error)
      (* level.Error(logger).Log("message", message, "error", err) *)
  | KitInfo (message : string) (count : nat)
      (* level.Info(logger).Log("message", message, "count", count) *)
  | PrintfError (err : error)
      (* log.Printf(err.Error()) *)
  | PrintfSkipped (count : nat).
      (* log.Printf("Skipped %d lines (rows) due to parsing errors", count) *)

(** [type record map[string]string] *)
Abbreviation record := (gmap string string).

(** The row loop of [csv2Json], the same text in package converter and in
    package main 0.2.0 and 0.3.0:
<<
  for {
      rowFields, err := reader.Read()
      if err != nil {
          if err == io.EOF { break }
          else if skipErrors { numRowsWithErrors++; log.Printf(err.Error()); continue }
          return err
      }
      thisRecord := fieldsToRecord(&colNames, &rowFields)
      allRecords = append(allRecords, thisRecord)
  }
>>
    The result carries the error of an early [return err]. *)
Fixpoint csv2Json_rows (fuel : nat) (reader : csv.Reader) (colNames : list string)
    (skipErrors : bool) (stdlog : list log_entry)
    (numRowsWithErrors : nat) (allRecords : list record)
    : exec (option error * nat * list record * list log_entry) :=
  match fuel with
  | O => Timeout
  | S fuel' =>
      let '((rowFields, err), reader) := csv.Read reader in
      match err with
      | Some e =>
          if decide (e = EOF) then
            Returns (None, numRowsWithErrors, allRecords, stdlog)
          else if skipErrors then
            csv2Json_rows fuel' reader colNames skipErrors
              (stdlog ++ [PrintfError e]) (S numRowsWithErrors) allRecords
          else Returns (Some e, numRowsWithErrors, allRecords, stdlog)
      | None =>
          thisRecord ← fieldsToRecord colNames rowFields;
          csv2Json_rows fuel' reader colNames skipErrors stdlog
            numRowsWithErrors (allRecords ++ [thisRecord])
      end
  end.

(** [csv2Json] from the point where the reader exists: column names, the
    deferred summary, the row loop, the encoding.  Returns the error, the
    writer and the standard logger's entries. *)
Definition csv2Json_from (fuel : nat) (reader : csv.Reader) (colNames0 : list string)
    (jsonOutput : io.Writer) (skipErrors : bool) (stdlog : list log_entry)
    : exec (option error * io.Writer * list log_entry) :=
  let header :=
    if decide (length colNames0 = 0) then
      let '((firstRow, err), reader) := csv.Read reader in
      match err with
      | Some e => if decide (e = EOF) then inr (colNames0, reader) else inl e
      | None => inr (firstRow, reader)
      end
    else inr (colNames0, csv.set_FieldsPerRecord (Z.of_nat (length colNames0)) reader) in
  match header with
  | inl e => Returns (Some e, jsonOutput, stdlog)
  | inr (colNames, reader) =>
      '(err, numRowsWithErrors, allRecords, stdlog) ←
        csv2Json_rows fuel reader colNames skipErrors stdlog 0 [];
      let deferred (l : list log_entry) :=
        if bool_decide (skipErrors = true ∧ 0 < numRowsWithErrors)
        then l ++ [PrintfSkipped numRowsWithErrors] else l in
      match err with
      | Some e => Returns (Some e, jsonOutput, deferred stdlog)
      | None =>
          let '(err, w) := json.Encode jsonOutput allRecords in
          Returns (err, w, deferred stdlog)
      end
  end.

(** ** Package converter *)
Module converter.

Record Options : Type := mkOptions {
  ColNames : list string;
  CsvInput : io.Reader;
  JsonOutput : io.Writer;
  SkipErrors : bool;
  Logger : list log_entry;   (* what the logger behind the pointer has received *)
}.

(** [getCsvReader]: skip the first rune if it is a byte-order mark.
<<
br := bufio.NewReader(r)
firstRune, _, err := br.ReadRune()
if err != nil { if err != io.EOF { return nil, err } }
if firstRune != 0xFEFF { br.UnreadRune() }
return csv.NewReader(br), nil
>> *)
Definition getCsvReader (rd : io.Reader) : error + csv.Reader :=
  let br := bufio.NewReader rd in
  let '((firstRune, _, err), br) := bufio.ReadRune br in
  let rest :=
    let br := if decide (firstRune ≠ 0xFEFF%Z) then snd (bufio.UnreadRune br) else br in
    inr (csv.NewReader br) in
  match err with
  | Some e => if decide (e ≠ EOF) then inl e else rest
  | None => rest
  end.

(** [parseColumnNames]: the first row, or nothing at end of input. *)
Definition parseColumnNames (reader : csv.Reader)
    : (list string * option error) * csv.Reader :=
  let '((firstRow, err), reader) := csv.Read reader in
  match err with
  | Some e => if decide (e = EOF) then ((firstRow, None), reader)
              else (([], Some e), reader)
  | None => ((firstRow, None), reader)
  end.

(** The loop of [buildRecords].  The [err] it tests is the loop's own
    variable ([rowFields, err := reader.Read()] declares it inside the
    loop body); the loop leaves through [break] and hands no error on. *)
Fixpoint buildRecords_loop (fuel : nat) (reader : csv.Reader) (o : Options)
    (logger : list log_entry) (skipped : nat) (records : list record)
    : exec (nat * list record * list log_entry) :=
  match fuel with
  | O => Timeout
  | S fuel' =>
      let '((rowFields, err), reader) := csv.Read reader in
      match err with
      | Some e =>
          if decide (e = EOF) then Returns (skipped, records, logger)
          else if SkipErrors o then
            buildRecords_loop fuel' reader o
              (logger ++ [KitError "Skipped parsing error" e]) (S skipped) records
          else Returns (skipped, records, logger)
      | None =>
          rec ← fieldsToRecord (ColNames o) rowFields;
          buildRecords_loop fuel' reader o logger skipped (records ++ [rec])
      end
  end.

(** [buildRecords(reader, o) (records []record, err error)]: the named
    result [err] is never assigned, so the bare [return] yields nil. *)
Definition buildRecords (fuel : nat) (reader : csv.Reader) (o : Options)
    : exec ((list record * option error) * list log_entry) :=
  let err : option error := None in
  '(skipped, records, logger) ← buildRecords_loop fuel reader o (Logger o) 0 [];
  let logger :=
    if decide (0 < skipped)
    then logger ++ [KitInfo "Skipped lines (rows) due to parsing errors" skipped]
    else logger in
  Returns ((records, err), logger).

Definition set_ColNames (cols : list string) (o : Options) : Options :=
  {| ColNames := cols; CsvInput := CsvInput o; JsonOutput := JsonOutput o;
     SkipErrors := SkipErrors o; Logger := Logger o |}.

Definition set_effects (w : io.Writer) (logger : list log_entry) (o : Options) : Options :=
  {| ColNames := ColNames o; CsvInput := CsvInput o; JsonOutput := w;
     SkipErrors := SkipErrors o; Logger := logger |}.

(** [Instrument(o *Options) error]: the error returned, and the options
    with the column names it stored, the writer and the logger after
    the call. *)
Definition Instrument (fuel : nat) (o : Options) : exec (option error * Options) :=
  match getCsvReader (CsvInput o) with
  | inl err => Returns (Some err, o)
  | inr reader =>
      let header :=
        if decide (length (ColNames o) = 0) then
          let '((columnNames, err), reader) := parseColumnNames reader in
          match err with
          | Some e => inl e
          | None => inr (set_ColNames columnNames o, reader)
          end
        else inr (o, reader) in
      match header with
      | inl err => Returns (Some err, o)
      | inr (o, reader) =>
          let reader := csv.set_FieldsPerRecord (Z.of_nat (length (ColNames o))) reader in
          '((records, err), logger) ← buildRecords fuel reader o;
          let o := set_effects (JsonOutput o) logger o in
          match err with
          | Some e => Returns (Some e, o)
          | None =>
              let '(err, w) := json.Encode (JsonOutput o) records in
              Returns (err, set_effects w logger o)
          end
      end
  end.

Definition Execute (fuel : nat) (o : Options) : exec (option error * Options) :=
  Instrument fuel o.

(** [csv2Json(o Options) error], with the standard logger's entries. *)
Definition csv2Json (fuel : nat) (o : Options) (stdlog : list log_entry)
    : exec (option error * io.Writer * list log_entry) :=
  match getCsvReader (CsvInput o) with
  | inl err => Returns (Some err, JsonOutput o, stdlog)
  | inr reader =>
      csv2Json_from fuel reader (ColNames o) (JsonOutput o) (SkipErrors o) stdlog
  end.

End converter.

(** ** Package main, versions 0.2.0 and 0.3.0 *)
Module main.

Record conversionOptions : Type := mkOptions {
  colNames : list string;
  csvInput : io.Reader;
  jsonOutput : io.Writer;
  skipErrors : bool;
}.

(** [getCsvReader(r io.Reader) *csv.Reader]: as in package converter,
    but a failed first read other than [io.EOF] ends in [log.Fatal(err)]. *)
Definition getCsvReader (rd : io.Reader) : exec csv.Reader :=
  let br := bufio.NewReader rd in
  let '((firstRune, _, err), br) := bufio.ReadRune br in
  let rest :=
    let br := if decide (firstRune ≠ 0xFEFF%Z) then snd (bufio.UnreadRune br) else br in
    Returns (csv.NewReader br) in
  match err with
  | Some e => if decide (e ≠ EOF) then Exits e else rest
  | None => rest
  end.

Definition csv2Json (fuel : nat) (options : conversionOptions) (stdlog : list log_entry)
    : exec (option error * io.Writer * list log_entry) :=
  reader ← getCsvReader (csvInput options);
  csv2Json_from fuel reader (colNames options) (jsonOutput options)
    (skipErrors options) stdlog.

End main.

(** ** Vocabulary of the specification *)

(** The byte-order mark U+FEFF in UTF-8. *)
Definition BOM : list ascii := ["239"%char; "187"%char; "191"%char].

(** The input without a byte-order mark that starts it. *)
Definition strip_bom (input : list ascii) : list ascii :=
  match input with
  | c0 :: c1 :: c2 :: rest =>
      if decide ([c0; c1; c2] = BOM) then rest else input
  | _ => input
  end.
Arguments strip_bom : simpl never.

(** The rows the reader delivers up to end of input, each with the error
    [Read] reported for it.  Every [Read] before the end of an input that
    ends in EOF consumes input ([Read_spec]), so the fuel of [rows_of]
    reaches the end ([read_all_fuel]). *)
Fixpoint read_all (fuel : nat) (rd : csv.Reader) : list (list string * option error) :=
  match fuel with
  | O => []
  | S fuel' =>
      let '((row, err), rd') := csv.Read rd in
      if decide (err = Some EOF) then [] else (row, err) :: read_all fuel' rd'
  end.

Definition input_left (rd : csv.Reader) : nat := length (bufio.unread (csv.r rd)).

Definition rows_of (rd : csv.Reader) : list (list string * option error) :=
  read_all (S (input_left rd)) rd.

(** Rows read without error, and the errors of the others, in input order. *)
Definition good_rows (rows : list (list string * option error)) : list (list string) :=
  omap (fun r => match r.2 with None => Some r.1 | Some _ => None end) rows.

Definition row_errors (rows : list (list string * option error)) : list error :=
  omap (fun r => r.2) rows.

(** ASCII white space. *)
Definition is_space (c : ascii) : Prop :=
  c ∈ [" "%char; "009"%char; "010"%char; "011"%char; "012"%char; "013"%char].

(** A Go string from bytes, and the line feed as a string. *)
Definition bytes (s : string) : list ascii := list_ascii_of_string s.
Definition nl : string := String csv.LF EmptyString.

(** An [io.Reader] over a string that ends in [io.EOF], such as
    [bytes.NewReader]; an empty [bytes.Buffer] as writer. *)
Definition string_reader (s : string) : io.Reader := io.mkReader (bytes s) EOF.
Definition new_buffer : io.Writer := io.mkWriter [] None.

(** ** Vocabulary of the proofs and the examples *)

(** [rd'] continues [rd]: same settings and source, no more input left. *)
Definition continues (rd' rd : csv.Reader) : Prop :=
  csv.FieldsPerRecord rd' = csv.FieldsPerRecord rd
  /\ bufio.rd_err (csv.r rd') = bufio.rd_err (csv.r rd)
  /\ input_left rd' <= input_left rd.

(** Input still to be parsed: the rest of the line and the unread bytes. *)
Definition to_parse (st : csv.pstate) : nat :=
  length (csv.line st) + input_left (csv.rdr st).

(** What parsing one record keeps: the reader continues, a pending read
    error stays other than EOF, and the parse error is never EOF. *)
Definition parse_keeps (st st' : csv.pstate) (perr : option error) : Prop :=
  continues (csv.rdr st') (csv.rdr st)
  /\ (csv.errRead st <> Some EOF -> csv.errRead st' <> Some EOF)
  /\ perr <> Some EOF.

Definition ends_in_EOF (rd : csv.Reader) : Prop := bufio.rd_err (csv.r rd) = EOF.

(** The reader checks rows against the number of column names. *)
Definition fits (cols : list string) (rd : csv.Reader) : Prop :=
  cols = [] \/ csv.FieldsPerRecord rd = Z.of_nat (length cols).

(** The column-name resolver: from an override and the reader, the column
    names and the reader the data rows are read from. *)
Inductive resolved (override : list string) (reader : csv.Reader)
    : list string -> csv.Reader -> Prop :=
  | resolved_override :
      override <> [] ->
      resolved override reader override
        (csv.set_FieldsPerRecord (Z.of_nat (length override)) reader)
  | resolved_header row rd :
      override = [] -> csv.Read reader = ((row, None), rd) ->
      resolved override reader row rd
  | resolved_empty row rd :
      override = [] -> csv.Read reader = ((row, Some EOF), rd) ->
      resolved override reader [] rd.

(** The diagnostics of a run that skipped the rows with [errs]. *)
Definition kit_diagnostics (errs : list error) : list log_entry :=
  map (KitError "Skipped parsing error") errs
  ++ (if decide (0 < length errs)
      then [KitInfo "Skipped lines (rows) due to parsing errors" (length errs)]
      else []).

Definition printf_diagnostics (errs : list error) : list log_entry :=
  map PrintfError errs
  ++ (if decide (0 < length errs) then [PrintfSkipped (length errs)] else []).

(** JSON text written with apostrophes for the double quotes. *)
Definition dq (s : string) : list ascii :=
  map (fun c => if decide (c = "'"%char) then csv.Quote else c) (bytes s).

Definition example_options (cols : list string) (input : string) (skip : bool)
    : converter.Options :=
  converter.mkOptions cols (string_reader input) new_buffer skip [].

(** The input of the tests [Errors abort conversion] and [Errors can be
    skipped]: the third line has two fields instead of three. *)
Definition rows_with_bad_line : string :=
  "a,b,c" +:+ nl +:+ "1,2,3" +:+ nl +:+ "bad,line" +:+ nl +:+ "z,y,x" +:+ nl.

(** For concrete runs: the reader [getCsvReader] returns, the header row
    and the reader after it. *)
Definition reader_of (input : io.Reader) : csv.Reader :=
  match converter.getCsvReader input with
  | inr reader => reader
  | inl _ => csv.NewReader (bufio.NewReader input)
  end.
Definition header_of (input : io.Reader) : list string :=
  (csv.Read (reader_of input)).1.1.
Definition after_header (input : io.Reader) : csv.Reader :=
  (csv.Read (reader_of input)).2.

(** The header of the test [Cannot skip CSV parse error in header line]. *)
Definition bad_header : string :=
  "a," +:+ String csv.Quote "b,c" +:+ nl +:+ "1,2,3" +:+ nl +:+ "z,y,x" +:+ nl.

(** The input of the test [Basic conversion with columns from first row]. *)
Definition three_lines : string :=
  "a,b,c" +:+ nl +:+ "1,2,3" +:+ nl +:+ "z,y,x" +:+ nl.

(** The override example of the specification. *)
Definition two_lines : string := "a,b,c" +:+ nl +:+ "1,2,3" +:+ nl.

(** The lines of an input: the pieces between line feeds; the last one
    is what follows the last line feed, and may be empty. *)
Fixpoint lines (s : list ascii) : list (list ascii) :=
  match s with
  | [] => [[]]
  | c :: s' =>
      if decide (c = csv.LF) then [] :: lines s'
      else match lines s' with
           | l :: ls => (c :: l) :: ls
           | [] => [[c]]
           end
  end.

(** The lines that are not blank; a blank line is empty or a lone
    carriage return. *)
Definition nonblank_lines (s : list ascii) : list (list ascii) :=
  filter (fun l => l <> [] /\ l <> [csv.CR]) (lines s).

(** The field a line of white space gives: the line without the carriage
    return that ends it. *)
Definition blank_field (l : list ascii) : string :=
  string_of_list_ascii (csv.dropCR l).

(** A line of blanks between two empty lines. *)
Definition blank_line_among_empty_lines : string := nl +:+ "    " +:+ nl +:+ nl.

(** A second line with two fields under an override of three names. *)
Definition short_second_line : string := "a,b,c" +:+ nl +:+ "1,2" +:+ nl.

(** ** The rest of the source: earlier generations and the command line *)

#[global] Instance exec_fmap : FMap exec := fun A B f m =>
  match m with
  | Returns a => Returns (f a)
  | Panics p => Panics p
  | Exits e => Exits e
  | Timeout => Timeout
  end.

(** What a run shows to its caller: the error and the bytes written. *)
Definition Instrument_outcome (r : option error * converter.Options)
    : option error * io.Writer := (r.1, converter.JsonOutput r.2).
Definition csv2Json_outcome (r : option error * io.Writer * list log_entry)
    : option error * io.Writer := (r.1.1, r.1.2).

(** The rows before the first row with an error, and that error. *)
Fixpoint rows_before_error (rows : list (list string * option error)) : list (list string) :=
  match rows with
  | (row, None) :: rows' => row :: rows_before_error rows'
  | _ => []
  end.

Definition first_row_error (rows : list (list string * option error)) : option error :=
  head (row_errors rows).

(** The process environment: standard input, and what [os.Open] returns
    for a path. *)
Module os.

Record Env : Type := mkEnv {
  Stdin : io.Reader;
  Open : string -> error + io.Reader;
}.

End os.

(** ** Package main 0.2.0 and 0.3.0: the command line

    [flaggy.Parse] has run: the flags and the positional value are the
    arguments [colNames], [fileName] and [skipErrors]. *)
Module main_cli.

(** [getCsvFile]: standard input for the empty name, else [os.Open]. *)
Definition getCsvFile (env : os.Env) (fileName : string) : error + io.Reader :=
  if decide (fileName = "") then inr (os.Stdin env) else os.Open env fileName.

(** [runCli]: open the input, then [csv2Json] to standard output. *)
Definition runCli (fuel : nat) (env : os.Env) (colNames : list string) (fileName : string)
    (skipErrors : bool) (stdout : io.Writer) (stdlog : list log_entry)
    : exec (option error * io.Writer * list log_entry) :=
  match getCsvFile env fileName with
  | inl err => Returns (Some err, stdout, stdlog)
  | inr fd => main.csv2Json fuel (main.mkOptions colNames fd stdout skipErrors) stdlog
  end.

(** [main]: [log.Fatalln] on the error of [runCli]. *)
Definition main (fuel : nat) (env : os.Env) (colNames : list string) (fileName : string)
    (skipErrors : bool) (stdout : io.Writer) (stdlog : list log_entry)
    : exec (io.Writer * list log_entry) :=
  r ← runCli fuel env colNames fileName skipErrors stdout stdlog;
  match r.1.1 with
  | Some err => Exits err
  | None => Returns (r.1.2, r.2)
  end.

End main_cli.

(** ** Package main 0.1.0 with [csv2Json(colNames, input, out) error]
    (src/unnamed/part_001, second file): no byte-order mark handling, no
    skipping. *)
Module main_v0_1.

(** The row loop: [break] at [io.EOF], [return err] on any other error. *)
Fixpoint csv2Json_rows (fuel : nat) (reader : csv.Reader) (colNames : list string)
    (allRecords : list record) : exec (option error * list record) :=
  match fuel with
  | O => Timeout
  | S fuel' =>
      let '((rowFields, err), reader) := csv.Read reader in
      match err with
      | Some e =>
          if decide (e = EOF) then Returns (None, allRecords)
          else Returns (Some e, allRecords)
      | None =>
          thisRecord ← fieldsToRecord colNames rowFields;
          csv2Json_rows fuel' reader colNames (allRecords ++ [thisRecord])
      end
  end.

Definition csv2Json (fuel : nat) (colNames : list string) (input : io.Reader)
    (out : io.Writer) : exec (option error * io.Writer) :=
  let reader := csv.NewReader (bufio.NewReader input) in
  let header :=
    if decide (length colNames = 0) then
      let '((firstRow, err), reader) := csv.Read reader in
      match err with
      | Some e => if decide (e = EOF) then inr (colNames, reader) else inl e
      | None => inr (firstRow, reader)
      end
    else inr (colNames, csv.set_FieldsPerRecord (Z.of_nat (length colNames)) reader) in
  match header with
  | inl e => Returns (Some e, out)
  | inr (colNames, reader) =>
      r ← csv2Json_rows fuel reader colNames [];
      match r.1 with
      | Some e => Returns (Some e, out)
      | None =>
          let '(err, w) := json.Encode out r.2 in
          Returns (err, w)
      end
  end.

Definition getCsvFile (env : os.Env) (fileName : string) : error + io.Reader :=
  if decide (fileName = "") then inr (os.Stdin env) else os.Open env fileName.

(** [main]: [log.Fatalln] on the error of [getCsvFile] or of [csv2Json]. *)
Definition main (fuel : nat) (env : os.Env) (colNames : list string) (fileName : string)
    (stdout : io.Writer) : exec io.Writer :=
  match getCsvFile env fileName with
  | inl err => Exits err
  | inr fd =>
      r ← csv2Json fuel colNames fd stdout;
      match r.1 with
      | Some err => Exits err
      | None => Returns r.2
      end
  end.

End main_v0_1.

(** ** The first generation of package main (src/unnamed/part_001, third
    file): [fileName] and [colNames] are package variables,
    [csv2Json(fd)] writes to standard output and ends the process with
    [log.Fatalln] on every error. *)
Module main_first.

(** [fieldsToRecord(colNames, rowValues, r)]: the same loop, storing
    into the record [r] it is given. *)
Definition fieldsToRecord (colNames rowValues : list string) (r : record) : exec record :=
  fieldsToRecord_range colNames rowValues (seq 0 (length colNames)) r.

(** The row loop.  [make(record, reader.FieldsPerRecord)] gives an empty
    record; the size is only a hint. *)
Fixpoint csv2Json_rows (fuel : nat) (reader : csv.Reader) (colNames : list string)
    (allRecords : list record) : exec (list record) :=
  match fuel with
  | O => Timeout
  | S fuel' =>
      let '((rowFields, err), reader) := csv.Read reader in
      match err with
      | Some e => if decide (e = EOF) then Returns allRecords else Exits e
      | None =>
          thisRecord ← fieldsToRecord colNames rowFields ∅;
          csv2Json_rows fuel' reader colNames (allRecords ++ [thisRecord])
      end
  end.

(** [csv2Json(fd)]: the package variable [colNames] and standard output
    after the call. *)
Definition csv2Json (fuel : nat) (colNames : list string) (fd : io.Reader)
    (stdout : io.Writer) : exec (list string * io.Writer) :=
  let reader := csv.NewReader (bufio.NewReader fd) in
  if decide (length colNames = 0) then
    let '((firstRow, err), reader) := csv.Read reader in
    match err with
    | Some e => if decide (e = EOF) then Returns (colNames, stdout) else Exits e
    | None =>
        allRecords ← csv2Json_rows fuel reader firstRow [];
        let '(err, w) := json.Encode stdout allRecords in
        match err with
        | Some e => Exits e
        | None => Returns (firstRow, w)
        end
    end
  else
    let reader := csv.set_FieldsPerRecord (Z.of_nat (length colNames)) reader in
    allRecords ← csv2Json_rows fuel reader colNames [];
    let '(err, w) := json.Encode stdout allRecords in
    match err with
    | Some e => Exits e
    | None => Returns (colNames, w)
    end.

(** [getCsvFile()] reads the package variable [fileName]. *)
Definition getCsvFile (env : os.Env) (fileName : string) : error + io.Reader :=
  if decide (fileName = "") then inr (os.Stdin env) else os.Open env fileName.

Definition main (fuel : nat) (env : os.Env) (colNames : list string) (fileName : string)
    (stdout : io.Writer) : exec (list string * io.Writer) :=
  match getCsvFile env fileName with
  | inl err => Exits err
  | inr fd => csv2Json fuel colNames fd stdout
  end.

End main_first.

(** ** Package converterold (src/unnamed/part_001, fourth file)

    [Options.C] and [Convert] read through [csv.NewReader(o.CsvInput)],
    without [getCsvReader]; from there both have the text of [csv2Json]. *)
Module converterold.

Record Options : Type := mkOptions {
  ColNames : list string;
  CsvInput : io.Reader;
  JsonOutput : io.Writer;
  SkipErrors : bool;
}.

Definition C (fuel : nat) (o : Options) (stdlog : list log_entry)
    : exec (option error * io.Writer * list log_entry) :=
  let reader := csv.NewReader (bufio.NewReader (CsvInput o)) in
  csv2Json_from fuel reader (ColNames o) (JsonOutput o) (SkipErrors o) stdlog.

Definition Convert (fuel : nat) (options : Options) (stdlog : list log_entry)
    : exec (option error * io.Writer * list log_entry) :=
  let reader := csv.NewReader (bufio.NewReader (CsvInput options)) in
  csv2Json_from fuel reader (ColNames options) (JsonOutput options)
    (SkipErrors options) stdlog.

End converterold.

(** ** Package cmd (src/cmd/root.go)

    The flags are parsed and cobra has checked that there is at most
    one argument: [logLevel] counts the verbosity flags, [options] holds
    the column names and [SkipErrors], standard output and, behind the
    pointer [Logger], the package's logger. *)
Module cmd.

(** The levels of go-kit's [level] package. *)
Inductive level : Type :=
  | levelDebug
  | levelInfo
  | levelWarn
  | levelError.

(** [level.AllowDebug], [level.AllowInfo], [level.AllowWarn]: the levels
    a filter lets through. *)
Definition AllowDebug (l : level) : bool := true.
Definition AllowInfo (l : level) : bool :=
  match l with levelDebug => false | _ => true end.
Definition AllowWarn (l : level) : bool :=
  match l with levelWarn | levelError => true | _ => false end.

(** [setUpLogs]: the filter chosen from the verbosity. *)
Definition setUpLogs (logLevel : Z) : level -> bool :=
  if (2 <=? logLevel)%Z then AllowDebug
  else if (logLevel =? 1)%Z then AllowInfo
  else AllowWarn.

(** The level of a call on the logger; calls of the standard [log]
    package do not pass through the filter. *)
Definition entry_level (e : log_entry) : option level :=
  match e with
  | KitError _ _ => Some levelError
  | KitInfo _ _ => Some levelInfo
  | PrintfError _ | PrintfSkipped _ => None
  end.

(** [level.NewFilter(logger, allow)]: of the calls made, those that
    reach the underlying logger. *)
Definition passes (allow : level -> bool) (e : log_entry) : bool :=
  match entry_level e with
  | Some l => allow l
  | None => true
  end.

Definition NewFilter (allow : level -> bool) (calls : list log_entry) : list log_entry :=
  filter (fun e => passes allow e = true) calls.

Definition set_CsvInput (input : io.Reader) (o : converter.Options) : converter.Options :=
  {| converter.ColNames := converter.ColNames o; converter.CsvInput := input;
     converter.JsonOutput := converter.JsonOutput o;
     converter.SkipErrors := converter.SkipErrors o;
     converter.Logger := converter.Logger o |}.

(** [converter.Execute(options)] receives a copy of the options: the
    caller sees the error, the output and the calls on the logger. *)
Definition effects (r : option error * converter.Options)
    : option error * io.Writer * list log_entry :=
  (r.1, converter.JsonOutput r.2, converter.Logger r.2).

(** [RunE]: standard input without argument, else the file named by
    the first argument; then [converter.Execute]. *)
Definition RunE (fuel : nat) (env : os.Env) (args : list string) (options : converter.Options)
    : exec (option error * io.Writer * list log_entry) :=
  match args with
  | [] => effects <$> converter.Execute fuel (set_CsvInput (os.Stdin env) options)
  | name :: _ =>
      match os.Open env name with
      | inl err => Returns (Some err, converter.JsonOutput options, converter.Logger options)
      | inr f => effects <$> converter.Execute fuel (set_CsvInput f options)
      end
  end.

(** [Execute]: [setUpLogs] runs before [RunE], so the calls on the
    logger go through its filter; the error of the command is printed
    and the process exits with status 1.  Returns standard output and
    the entries that reach the logger on standard error. *)
Definition Execute (fuel : nat) (env : os.Env) (logLevel : Z) (args : list string)
    (options : converter.Options) : exec (io.Writer * list log_entry) :=
  r ← RunE fuel env args options;
  match r.1.1 with
  | Some err => Exits err
  | None => Returns (r.1.2, NewFilter (setUpLogs logLevel) r.2)
  end.

End cmd.

(** ** Vocabulary of the further properties *)

(** A pipe that was closed. *)
Definition closed_pipe : io.Writer := io.mkWriter [] (Some (ErrOther "closed pipe")).

(** A header that names a column twice. *)
Definition repeated_header : string := "a,b,a" +:+ nl +:+ "1,2,3" +:+ nl.

(** An environment with standard input [stdin] and no file to open. *)
Definition no_files (stdin : string) : os.Env :=
  os.mkEnv (string_reader stdin) (fun _ => inl (ErrOther "file does not exist")).



(** Readers that differ at most in the rune a [ReadRune] remembered. *)
Definition same_input (rd1 rd2 : csv.Reader) : Prop :=
  bufio.unread (csv.r rd1) = bufio.unread (csv.r rd2)
  /\ bufio.rd_err (csv.r rd1) = bufio.rd_err (csv.r rd2)
  /\ csv.numLine rd1 = csv.numLine rd2
  /\ csv.FieldsPerRecord rd1 = csv.FieldsPerRecord rd2.

(** What [Instrument] leaves behind, the input stream apart. *)
Definition Instrument_effects (r : option error * converter.Options)
    : option error * list string * io.Writer * list log_entry :=
  (r.1, converter.ColNames r.2, converter.JsonOutput r.2, converter.Logger r.2).

(** A source that fails after two lines. *)
Definition failing_after_two_lines : io.Reader :=
  io.mkReader (bytes two_lines) (ErrOther "read failed").

(** * Theorems *)

(** * Properties of fieldsToRecord *)

Lemma foldl_ext_in {A B : Type} (f g : A -> B -> A) (l : list B) (a : A) :
  (forall a x, x ∈ l -> f a x = g a x) -> foldl f a l = foldl g a l.
Proof.
  revert a. induction l as [|x l IH]; intros a H; simpl; [done|].
  rewrite H by left. apply IH. intros a' y Hy. apply H. by right.
Qed.

Lemma fieldsToRecord_range_ok colNames rowValues range rec :
  (forall i, i ∈ range -> i < length colNames ∧ i < length rowValues) ->
  fieldsToRecord_range colNames rowValues range rec
  = Returns (foldl (set_field colNames rowValues) rec range).
Proof.
  revert rec. induction range as [|i range IH]; intros rec H; simpl; [done|].
  destruct (H i) as [Hc Hr]; [by left|].
  apply lookup_lt_is_Some_2 in Hc as [k Hk], Hr as [v Hv].
  unfold index, set_field. rewrite Hk, Hv. simpl.
  apply IH. intros j Hj. apply H. by right.
Qed.

Lemma fieldsToRecord_range_panics colNames rowValues n a rec :
  a <= length rowValues -> a + n = length colNames -> length rowValues < a + n ->
  fieldsToRecord_range colNames rowValues (seq a n) rec
  = Panics (IndexOutOfRange (length rowValues) (length rowValues)).
Proof.
  revert a rec. induction n as [|n IH]; intros a rec Ha Hn Hlt; [lia|].
  simpl. unfold index.
  destruct (colNames !! a) as [k|] eqn:Hk; simpl.
  2: { apply lookup_ge_None in Hk. lia. }
  destruct (rowValues !! a) as [v|] eqn:Hv; simpl.
  - apply lookup_lt_Some in Hv. apply IH; lia.
  - apply lookup_ge_None in Hv. by replace a with (length rowValues) by lia.
Qed.

Lemma build_record_fold columns row :
  build_record columns row = foldl (set_field columns row) ∅ (seq 0 (length columns)).
Proof. reflexivity. Qed.

Lemma fieldsToRecord_spec columns row :
  fieldsToRecord columns row
  = if decide (length columns <= length row)
    then Returns (build_record columns row)
    else Panics (IndexOutOfRange (length row) (length row)).
Proof.
  unfold fieldsToRecord. case_decide as H.
  - rewrite fieldsToRecord_range_ok; [done|].
    intros i Hi%elem_of_seq. lia.
  - apply fieldsToRecord_range_panics; lia.
Qed.

Lemma build_record_snoc columns c row v :
  row !! length columns = Some v ->
  build_record (columns ++ [c]) row = <[c:=v]> (build_record columns row).
Proof.
  intros Hv. rewrite !build_record_fold, length_app. simpl.
  rewrite Nat.add_1_r, seq_S, foldl_app. simpl.
  unfold set_field at 1. rewrite lookup_app_r, Nat.sub_diag by lia. simpl.
  rewrite Hv. f_equal.
  apply foldl_ext_in. intros a i Hi%elem_of_seq.
  unfold set_field. by rewrite lookup_app_l by lia.
Qed.

Lemma build_record_nil row : build_record [] row = ∅.
Proof. reflexivity. Qed.

(** The value under a name is the row value at the last index of the name. *)
Lemma build_record_lookup columns row k i :
  length columns <= length row ->
  columns !! i = Some k -> (forall j, i < j -> columns !! j ≠ Some k) ->
  build_record columns row !! k = row !! i.
Proof.
  revert i. induction columns as [|c columns IH] using rev_ind; intros i Hlen Hi Hlast.
  - done.
  - rewrite length_app in Hlen. simpl in Hlen.
    destruct (lookup_lt_is_Some_2 row (length columns)) as [v Hv]; [lia|].
    rewrite (build_record_snoc _ _ _ _ Hv).
    destruct (decide (i = length columns)) as [->|Hne].
    + rewrite lookup_app_r, Nat.sub_diag in Hi by lia. simplify_eq/=.
      by rewrite lookup_insert_eq.
    + assert (i < length columns) as Hlt.
      { apply lookup_lt_Some in Hi. rewrite length_app in Hi. simpl in Hi. lia. }
      rewrite lookup_app_l in Hi by done.
      assert (c ≠ k) as Hck.
      { intros ->. apply (Hlast (length columns)); [lia|].
        by rewrite lookup_app_r, Nat.sub_diag by lia. }
      rewrite lookup_insert_ne by done.
      apply IH; [lia|done|].
      intros j Hj Hcj. apply (Hlast j Hj).
      rewrite lookup_app_l; [done|]. by apply lookup_lt_Some in Hcj.
Qed.

Lemma build_record_dom columns row :
  length columns <= length row ->
  dom (build_record columns row) = list_to_set columns.
Proof.
  induction columns as [|c columns IH] using rev_ind; intros Hlen.
  - by rewrite build_record_nil, dom_empty_L.
  - rewrite length_app in Hlen. simpl in Hlen.
    destruct (lookup_lt_is_Some_2 row (length columns)) as [v Hv]; [lia|].
    rewrite (build_record_snoc _ _ _ _ Hv), dom_insert_L, IH by lia.
    rewrite list_to_set_app_L. simpl.
    by rewrite (right_id_L ∅ (∪)), (comm_L (∪)).
Qed.

Lemma build_record_size columns row :
  length columns <= length row ->
  size (build_record columns row) = length (remove_dups columns).
Proof.
  intros Hlen. rewrite <- size_dom, build_record_dom by done.
  rewrite <- (size_list_to_set (C:=gset string)) by apply NoDup_remove_dups.
  f_equal. apply set_eq. intros x.
  by rewrite !elem_of_list_to_set, elem_of_remove_dups.
Qed.

(** C2, amended.  [fieldsToRecord] returns the record with
    [record[columns[i]] = row[i]] for every [i < len(columns)] when the row
    has at least as many fields as there are columns, and panics with an
    index out of range when the row is shorter; with no columns it returns
    the empty record for every row. *)
Theorem fieldsToRecord_builds_or_panics (columns row : list string) :
  fieldsToRecord columns row
  = (if decide (length columns <= length row)
     then Returns (build_record columns row)
     else Panics (IndexOutOfRange (length row) (length row)))
  /\ fieldsToRecord [] row = Returns ∅.
Proof. split; [apply fieldsToRecord_spec|reflexivity]. Qed.

Lemma fieldsToRecord_short_row_panics :
  fieldsToRecord ["a"; "b"] ["1"] = Panics (IndexOutOfRange 1 1)
  /\ build_record ["a"; "b"] ["1"] = {[ "a" := "1" ]}
  /\ fieldsToRecord ["a"; "b"] ["1"] <> Returns (build_record ["a"; "b"] ["1"]).
Proof. split; [|split]; [by vm_compute|by vm_compute|discriminate]. Qed.

(** C10.  For a row at least as long as the column names, a name is mapped
    to the row value at the greatest index where it occurs, and the record
    has one entry for each distinct name; so for every name of the
    sequence, whether it occurs once or several times. *)
Theorem fieldsToRecord_last_duplicate_wins (columns row : list string) (k : string) (i : nat) :
  length columns <= length row ->
  columns !! i = Some k ->
  (forall j, i < j -> columns !! j <> Some k) ->
  exists rec,
    fieldsToRecord columns row = Returns rec
    /\ rec !! k = row !! i
    /\ is_Some (rec !! k)
    /\ dom rec = list_to_set columns
    /\ size rec = length (remove_dups columns).
Proof.
  intros Hlen Hi Hlast. exists (build_record columns row).
  rewrite fieldsToRecord_spec, decide_True by done.
  split; [done|]. split; [by apply build_record_lookup|].
  split; [|split; [by apply build_record_dom|by apply build_record_size]].
  rewrite (build_record_lookup _ _ _ _ Hlen Hi Hlast).
  apply lookup_lt_is_Some_2. apply lookup_lt_Some in Hi. lia.
Qed.

Lemma fieldsToRecord_last_duplicate_wins_witness :
  exists rec,
    fieldsToRecord ["a"; "b"; "a"] ["1"; "2"; "3"] = Returns rec
    /\ rec !! "a" = ["1"; "2"; "3"] !! 2
    /\ is_Some (rec !! "a")
    /\ dom rec = list_to_set ["a"; "b"; "a"]
    /\ size rec = length (remove_dups ["a"; "b"; "a"]).
Proof.
  apply (fieldsToRecord_last_duplicate_wins ["a"; "b"; "a"] ["1"; "2"; "3"] "a" 2).
  - simpl. lia.
  - reflexivity.
  - intros [|[|[|j]]] Hj; simpl; try lia; discriminate.
Defined.

(** * The csv reader: fuel, progress, field count *)

Lemma split_after_Some delim s l rest :
  bufio.split_after delim s = Some (l, rest) -> s = l ++ rest /\ 0 < length l.
Proof.
  revert l rest. induction s as [|c s IH]; intros l rest; simpl; [done|].
  case_decide.
  - intros [= <- <-]. simpl. split; [done|lia].
  - destruct (bufio.split_after delim s) as [[l' rest']|]; [|done].
    intros [= <- <-]. destruct (IH _ _ eq_refl) as [-> _]. simpl. split; [done|lia].
Qed.

Lemma continues_refl rd : continues rd rd.
Proof. by repeat split. Qed.

Lemma continues_trans rd1 rd2 rd3 :
  continues rd1 rd2 -> continues rd2 rd3 -> continues rd1 rd3.
Proof. unfold continues. intros (?&?&?) (?&?&?). repeat split; [congruence..|lia]. Qed.

Lemma length_dropCR l : length (csv.dropCR l) <= length l.
Proof. unfold csv.dropCR. case_decide; rewrite ?length_take; lia. Qed.

Lemma length_normalizeNL l : length (csv.normalizeNL l) <= length l.
Proof.
  unfold csv.normalizeNL. pose proof (length_reverse l) as Hr.
  destruct (reverse l) as [|c1 [|c2 ?]]; [done..|].
  case_bool_decide; [|done]. rewrite length_app, length_take. simpl in *. lia.
Qed.

Lemma readLine_spec rd l e rd' :
  csv.readLine rd = ((l, e), rd') ->
  continues rd' rd
  /\ length l + input_left rd' <= input_left rd
  /\ (bufio.unread (csv.r rd) = [] -> l = [] /\ e = Some (bufio.rd_err (csv.r rd)))
  /\ (bufio.unread (csv.r rd) <> [] -> input_left rd' < input_left rd).
Proof.
  unfold csv.readLine, bufio.ReadSlice, continues, input_left.
  destruct (bufio.split_after csv.LF (bufio.unread (csv.r rd))) as [[l0 rest]|] eqn:Hs.
  - apply split_after_Some in Hs as [Hs Hl0]. rewrite Hs.
    rewrite bool_decide_eq_false_2 by (intros [_ ?]; done).
    intros [= <- <- <-]. simpl. rewrite length_app.
    pose proof (length_normalizeNL l0).
    split; [repeat split; lia|]. split; [lia|]. split; [|lia].
    intros Hnil. destruct l0; simpl in *; [lia|done].
  - destruct (bufio.unread (csv.r rd)) as [|c l0] eqn:Hu.
    + rewrite bool_decide_eq_false_2 by (simpl; lia).
      intros [= <- <- <-]. simpl. by repeat split.
    + set (l1 := c :: l0) in *.
      assert (length l1 = S (length l0)) as Hl1 by done. clearbody l1.
      pose proof (length_normalizeNL l1). pose proof (length_dropCR l1).
      pose proof (length_normalizeNL (csv.dropCR l1)).
      case_bool_decide; intros [= <- <- <-]; simpl;
        (split; [repeat split; lia|]); (split; [lia|]);
        (split; [intros ->; simpl in Hl1; lia|lia]).
Qed.

Lemma IndexByte_lt s c i : csv.IndexByte s c = Some i -> i < length s.
Proof.
  revert i. induction s as [|x s IH]; intros i; simpl; [done|].
  case_decide; [intros [= <-]; lia|].
  destruct (csv.IndexByte s c) as [j|]; [|done].
  intros [= <-]. specialize (IH _ eq_refl). lia.
Qed.

Lemma nextRune_nonempty l b : csv.nextRune l = utf8.byte_val b -> l <> [].
Proof.
  intros H ->. unfold csv.nextRune in H. simpl in H.
  assert (0 <= utf8.byte_val b < 256)%Z as Hb.
  { unfold utf8.byte_val. pose proof (N_ascii_bounded b). lia. }
  unfold utf8.RuneError in H. lia.
Qed.

Lemma parseField_S fuel recLine st :
  csv.parseField (S fuel) recLine st =
  match csv.line st with
  | c :: _ =>
      if decide (c = csv.Quote)
      then csv.quotedField fuel recLine (csv.advance 1 st)
      else csv.bareField fuel recLine st
  | [] => csv.bareField fuel recLine st
  end.
Proof. reflexivity. Qed.

Lemma next_line_spec st :
  continues (csv.rdr (csv.next_line st)) (csv.rdr st)
  /\ to_parse (csv.next_line st) <= input_left (csv.rdr st).
Proof.
  unfold csv.next_line, to_parse.
  destruct (csv.readLine (csv.rdr st)) as [[l e] rd'] eqn:Hr.
  apply readLine_spec in Hr as (Hc & Hlen & _). simpl. split; [done|lia].
Qed.

Lemma parse_keeps_refl st perr : perr <> Some EOF -> parse_keeps st st perr.
Proof. intros H. split; [apply continues_refl|done]. Qed.

Lemma parse_keeps_step st1 st2 st3 perr :
  continues (csv.rdr st2) (csv.rdr st1) ->
  (csv.errRead st1 <> Some EOF -> csv.errRead st2 <> Some EOF) ->
  parse_keeps st2 st3 perr -> parse_keeps st1 st3 perr.
Proof.
  intros Hc He (Hc' & He' & Hp). split; [by eapply continues_trans|]. split; [|done].
  intros H. by apply He', He.
Qed.

Lemma parse_fuel fuel recLine :
  (forall st, 2 * to_parse st + 2 <= fuel ->
     exists st' err, csv.parseField fuel recLine st = Some (st', err)
                     /\ parse_keeps st st' err)
  /\ (forall st, 2 * to_parse st + 1 <= fuel ->
     exists st' err, csv.bareField fuel recLine st = Some (st', err)
                     /\ parse_keeps st st' err)
  /\ (forall st, 2 * to_parse st + 1 <= fuel ->
     exists st' err, csv.quotedField fuel recLine st = Some (st', err)
                     /\ parse_keeps st st' err).
Proof.
  induction fuel as [|fuel (IHp & IHb & IHq)].
  { repeat split; intros st H; lia. }
  assert (forall (st0 st : csv.pstate) (err : option error),
            csv.rdr st = csv.rdr st0 -> csv.errRead st = csv.errRead st0 ->
            err <> Some EOF ->
            exists st' err', Some (st, err) = Some (st', err') /\ parse_keeps st0 st' err')
    as Hstop.
  { intros st0 st err Hr He Herr. exists st, err. split; [done|].
    unfold parse_keeps. rewrite Hr, He. split; [apply continues_refl|done]. }
  assert (forall (st0 st st' : csv.pstate) (err : option error) r,
            csv.rdr st = csv.rdr st0 -> csv.errRead st = csv.errRead st0 ->
            r = Some (st', err) -> parse_keeps st st' err ->
            exists st'' err', r = Some (st'', err') /\ parse_keeps st0 st'' err')
    as Hgo.
  { intros st0 st st' err r Hr He -> Hk. exists st', err. split; [done|].
    eapply parse_keeps_step; [| |exact Hk]; rewrite ?Hr, ?He; [apply continues_refl|done]. }
  split; [|split]; intros st Hfuel.
  - rewrite parseField_S. destruct (csv.line st) as [|c l] eqn:Hl.
    + apply IHb. lia.
    + case_decide; [|apply IHb; lia].
      destruct (IHq (csv.advance 1 st)) as (st' & err & Hq & Hk);
        [|by eapply (Hgo st)].
      unfold to_parse in *. simpl. rewrite Hl in *. simpl in *.
      rewrite drop_0. lia.
  - simpl.
    destruct (csv.IndexByte (csv.line st) csv.Comma) as [i|] eqn:Hi.
    + destruct (csv.IndexByte (take i (csv.line st)) csv.Quote); [by apply Hstop|].
      apply IndexByte_lt in Hi.
      match goal with |- context [csv.parseField fuel recLine ?s] =>
        destruct (IHp s) as (st' & err & Hq & Hk); [|by eapply (Hgo st)] end.
      unfold to_parse in *. simpl. rewrite length_drop. lia.
    + destruct (csv.IndexByte _ csv.Quote); by apply Hstop.
  - simpl.
    destruct (csv.IndexByte (csv.line st) csv.Quote) as [i|] eqn:Hi.
    + apply IndexByte_lt in Hi.
      case_decide as Hq.
      { apply nextRune_nonempty in Hq. simpl in Hq.
        match goal with |- context [csv.quotedField fuel recLine ?s] =>
          destruct (IHq s) as (st' & err & Hq' & Hk); [|by eapply (Hgo st)] end.
        unfold to_parse in *. simpl.
        destruct (drop (i + 1) (csv.line st)) eqn:Hd; [done|].
        pose proof (length_drop (csv.line st) (i + 1)) as Hld.
        rewrite Hd in Hld. simpl in *. rewrite drop_0. lia. }
      case_decide as Hc.
      { apply nextRune_nonempty in Hc. simpl in Hc.
        match goal with |- context [csv.parseField fuel recLine ?s] =>
          destruct (IHp s) as (st' & err & Hq' & Hk); [|by eapply (Hgo st)] end.
        unfold to_parse in *. simpl.
        destruct (drop (i + 1) (csv.line st)) eqn:Hd; [done|].
        pose proof (length_drop (csv.line st) (i + 1)) as Hld.
        rewrite Hd in Hld. simpl in *. rewrite drop_0. lia. }
      case_decide; by apply Hstop.
    + case_decide as Hlen.
      * simpl. destruct (csv.errRead st) eqn:He; [apply Hstop; by rewrite ?He|].
        match goal with |- context [csv.quotedField fuel recLine (csv.next_line ?s)] =>
          destruct (next_line_spec s) as [Hc Hm];
          destruct (IHq (csv.next_line s)) as (st' & err & -> & Hk) end.
        { unfold to_parse in *. simpl in *. lia. }
        exists st', err. split; [done|].
        eapply parse_keeps_step; [exact Hc| |exact Hk].
        intros _. unfold csv.next_line. simpl.
        destruct (csv.readLine (csv.rdr st)) as [[l e] rd']. simpl.
        case_decide; [done|]. done.
      * destruct (csv.errRead st) eqn:He; apply Hstop; by rewrite ?He.
Qed.

Lemma skipEmpty_fuel fuel rd :
  input_left rd + 1 <= fuel ->
  exists l e rd',
    csv.skipEmpty fuel rd = Some ((l, e), rd')
    /\ continues rd' rd
    /\ length l + input_left rd' <= input_left rd
    /\ (bufio.unread (csv.r rd) = [] -> e = Some (bufio.rd_err (csv.r rd)))
    /\ (bufio.unread (csv.r rd) <> [] -> input_left rd' < input_left rd).
Proof.
  revert rd. induction fuel as [|fuel IH]; intros rd Hfuel; [lia|].
  simpl. destruct (csv.readLine rd) as [[l e] rd1] eqn:Hr.
  apply readLine_spec in Hr as (Hc & Hlen & Hnil & Hpos).
  case_bool_decide as Hskip.
  - destruct Hskip as [-> _].
    assert (bufio.unread (csv.r rd) <> []) as Hne.
    { intros Hu. by destruct (Hnil Hu). }
    specialize (Hpos Hne).
    destruct (IH rd1) as (l' & e' & rd' & -> & Hc' & Hlen' & _); [lia|].
    exists l', e', rd'. split; [done|]. split; [by eapply continues_trans|].
    split; [lia|]. split; [done|]. intros _. lia.
  - exists l, e, rd1. repeat split; try done; try apply Hc.
    intros Hu. by destruct (Hnil Hu).
Qed.

(** [readRecord] never uses up the fuel [Read] gives it. *)
Lemma readRecord_fuel rd : is_Some (csv.readRecord (csv.fuel_for rd) rd).
Proof.
  unfold csv.readRecord, csv.fuel_for. fold (input_left rd).
  destruct (skipEmpty_fuel (2 * input_left rd + 2) rd) as (l & e & rd1 & -> & Hc & Hlen & _);
    [lia|].
  simpl. case_decide; [done|].
  match goal with |- context [csv.parseField ?f ?n ?s] =>
    destruct (proj1 (parse_fuel f n) s) as (st' & err & -> & _) end.
  { unfold to_parse. simpl. lia. }
  simpl. repeat case_match; done.
Qed.

Lemma Read_readRecord rd : csv.readRecord (csv.fuel_for rd) rd = Some (csv.Read rd).
Proof.
  unfold csv.Read. by destruct (readRecord_fuel rd) as [res ->].
Qed.

(** What one [Read] does to the reader. *)
Lemma Read_spec rd row err rd' :
  csv.Read rd = ((row, err), rd') ->
  bufio.rd_err (csv.r rd') = bufio.rd_err (csv.r rd)
  /\ input_left rd' <= input_left rd
  /\ (bufio.rd_err (csv.r rd) = EOF -> err <> Some EOF -> input_left rd' < input_left rd)
  /\ ((0 < csv.FieldsPerRecord rd)%Z ->
        csv.FieldsPerRecord rd' = csv.FieldsPerRecord rd
        /\ (err = None -> Z.of_nat (length row) = csv.FieldsPerRecord rd))
  /\ (csv.FieldsPerRecord rd = 0%Z -> err <> Some EOF ->
        csv.FieldsPerRecord rd' = Z.of_nat (length row))
  /\ (err = Some EOF -> row = [] /\ csv.FieldsPerRecord rd' = csv.FieldsPerRecord rd).
Proof.
  intros HR. pose proof (Read_readRecord rd) as H. rewrite HR in H. clear HR.
  unfold csv.readRecord, csv.fuel_for in H. fold (input_left rd) in H.
  destruct (skipEmpty_fuel (2 * input_left rd + 2) rd)
    as (l & e & rd1 & Hs & (HF1 & HE1 & HL1) & Hlen & Hnil & Hpos); [lia|].
  rewrite Hs in H. simpl in H.
  case_decide as HEOF.
  { injection H as <- <- <-. repeat split; try done; try lia. }
  match type of H with context [csv.parseField ?f ?n ?s] =>
    destruct (proj1 (parse_fuel f n) s)
      as (st' & perr & Hp & (HF2 & HE2 & HL2) & Hkeep & Hperr) end.
  { unfold to_parse. simpl. lia. }
  rewrite Hp in H. simpl in H, HF2, HE2, HL2, Hkeep.
  specialize (Hkeep HEOF).
  assert (bufio.rd_err (csv.r rd) = EOF -> input_left rd1 < input_left rd) as Hprog.
  { intros Hterm. destruct (bufio.unread (csv.r rd)) eqn:Hu; [|by apply Hpos].
    rewrite Hnil, Hterm in HEOF; done. }
  assert (match perr with Some _ => perr | None => csv.errRead st' end <> Some EOF) as Hne.
  { by destruct perr. }
  set (rd2 := csv.rdr st') in *.
  assert (input_left (csv.set_FieldsPerRecord (Z.of_nat (length (csv.fields st'))) rd2)
          = input_left rd2) as Hset by done.
  clearbody rd2.
  destruct (0 <? csv.FieldsPerRecord rd2)%Z eqn:Hpos2.
  - apply Z.ltb_lt in Hpos2.
    case_bool_decide as Hcnt; injection H as <- <- <-;
      (split; [congruence|]); (split; [lia|]);
      (split; [intros Ht _; specialize (Hprog Ht); lia|]);
      (split; [|split; [intros; lia|done]]); intros _; (split; [congruence|]).
    + done.
    + intros Herr. apply dec_stable. intros Hne'. apply Hcnt. split; [|done]. congruence.
  - apply Z.ltb_ge in Hpos2.
    destruct (csv.FieldsPerRecord rd2 =? 0)%Z eqn:Hz; injection H as <- <- <-;
      (split; [simpl; congruence|]); (split; [simpl; lia|]);
      (split; [intros Ht _; specialize (Hprog Ht); simpl; lia|]); (split; [intros; lia|]);
      (split; [|done]).
    + done.
    + apply Z.eqb_neq in Hz. intros. lia.
Qed.

(** * The rows of an input that ends in EOF *)

Lemma read_all_fuel f1 f2 rd :
  ends_in_EOF rd -> input_left rd < f1 -> input_left rd < f2 ->
  read_all f1 rd = read_all f2 rd.
Proof.
  revert f2 rd. induction f1 as [|f1 IH]; intros f2 rd HE H1 H2; [lia|].
  destruct f2 as [|f2]; [lia|]. simpl.
  destruct (csv.Read rd) as [[row err] rd'] eqn:HR.
  apply Read_spec in HR as (HE' & _ & Hprog & _).
  case_decide; [done|]. f_equal.
  specialize (Hprog HE ltac:(done)).
  apply IH; [unfold ends_in_EOF; congruence|lia..].
Qed.

Lemma rows_of_Read rd row err rd' :
  ends_in_EOF rd -> csv.Read rd = ((row, err), rd') ->
  ends_in_EOF rd'
  /\ rows_of rd = if decide (err = Some EOF) then [] else (row, err) :: rows_of rd'.
Proof.
  intros HE HR. unfold rows_of at 1. simpl. rewrite HR.
  apply Read_spec in HR as (HE' & _ & Hprog & _).
  split; [unfold ends_in_EOF; congruence|].
  case_decide; [done|]. f_equal.
  specialize (Hprog HE ltac:(done)).
  apply read_all_fuel; [unfold ends_in_EOF; congruence|lia..].
Qed.

Lemma fits_Read cols rd row err rd' :
  fits cols rd -> csv.Read rd = ((row, err), rd') ->
  fits cols rd'
  /\ (err = None -> fieldsToRecord cols row = Returns (build_record cols row)).
Proof.
  intros [->|HF] HR; [split; [by left|done]|].
  destruct cols as [|c cols]; [split; [by left|done]|].
  apply Read_spec in HR as (_ & _ & _ & Hpos & _).
  destruct Hpos as [HF' Hrow]; [rewrite HF; simpl; lia|].
  split; [right; congruence|].
  intros Herr. rewrite fieldsToRecord_spec, decide_True; [done|].
  specialize (Hrow Herr). lia.
Qed.

Lemma good_rows_cons row err rows :
  good_rows ((row, err) :: rows)
  = match err with None => row :: good_rows rows | Some _ => good_rows rows end.
Proof. by destruct err. Qed.

Lemma row_errors_cons row err rows :
  row_errors ((row, err) :: rows)
  = match err with None => row_errors rows | Some e => e :: row_errors rows end.
Proof. by destruct err. Qed.

(** * The row loops *)

Lemma buildRecords_loop_spec fuel reader o logger skipped records :
  ends_in_EOF reader -> fits (converter.ColNames o) reader -> input_left reader < fuel ->
  converter.SkipErrors o = true \/ row_errors (rows_of reader) = [] ->
  converter.buildRecords_loop fuel reader o logger skipped records
  = Returns (skipped + length (row_errors (rows_of reader)),
             records ++ map (build_record (converter.ColNames o)) (good_rows (rows_of reader)),
             logger ++ map (KitError "Skipped parsing error") (row_errors (rows_of reader))).
Proof.
  revert reader logger skipped records.
  induction fuel as [|fuel IH]; intros reader logger skipped records HE Hfit Hfuel Hskip; [lia|].
  simpl. destruct (csv.Read reader) as [[row err] rd'] eqn:HR.
  destruct (rows_of_Read _ _ _ _ HE HR) as [HE' Hrows].
  destruct (fits_Read _ _ _ _ _ Hfit HR) as [Hfit' Hrec].
  pose proof (Read_spec _ _ _ _ HR) as (_ & _ & Hprog & _).
  rewrite Hrows in *. clear Hrows.
  destruct err as [e|].
  - destruct (decide (e = EOF)) as [->|Hne].
    + rewrite decide_True by done. simpl.
      by rewrite Nat.add_0_r, !app_nil_r.
    + rewrite decide_False in * by congruence.
      rewrite row_errors_cons, good_rows_cons in *.
      destruct Hskip as [Hskip|Hskip]; [|done]. rewrite Hskip.
      rewrite IH; [|done|done|specialize (Hprog HE ltac:(congruence)); lia|by left].
      simpl. f_equal. f_equal; [f_equal; lia|by rewrite <- app_assoc].
  - rewrite decide_False in * by done.
    rewrite row_errors_cons, good_rows_cons in *.
    rewrite Hrec by done. simpl.
    rewrite IH; [|done|done|specialize (Hprog HE ltac:(done)); lia|done].
    simpl. by rewrite <- app_assoc.
Qed.

Lemma csv2Json_rows_spec fuel reader colNames skipErrors stdlog n allRecords :
  ends_in_EOF reader -> fits colNames reader -> input_left reader < fuel ->
  skipErrors = true \/ row_errors (rows_of reader) = [] ->
  csv2Json_rows fuel reader colNames skipErrors stdlog n allRecords
  = Returns (None, n + length (row_errors (rows_of reader)),
             allRecords ++ map (build_record colNames) (good_rows (rows_of reader)),
             stdlog ++ map PrintfError (row_errors (rows_of reader))).
Proof.
  revert reader stdlog n allRecords.
  induction fuel as [|fuel IH]; intros reader stdlog n allRecords HE Hfit Hfuel Hskip; [lia|].
  simpl. destruct (csv.Read reader) as [[row err] rd'] eqn:HR.
  destruct (rows_of_Read _ _ _ _ HE HR) as [HE' Hrows].
  destruct (fits_Read _ _ _ _ _ Hfit HR) as [Hfit' Hrec].
  pose proof (Read_spec _ _ _ _ HR) as (_ & _ & Hprog & _).
  rewrite Hrows in *. clear Hrows.
  destruct err as [e|].
  - destruct (decide (e = EOF)) as [->|Hne].
    + rewrite decide_True by done. simpl.
      by rewrite Nat.add_0_r, !app_nil_r.
    + rewrite decide_False in * by congruence.
      rewrite row_errors_cons, good_rows_cons in *.
      destruct Hskip as [->|Hskip]; [|done].
      rewrite IH; [|done|done|specialize (Hprog HE ltac:(congruence)); lia|by left].
      simpl. f_equal. f_equal; [f_equal; f_equal; lia|by rewrite <- app_assoc].
  - rewrite decide_False in * by done.
    rewrite row_errors_cons, good_rows_cons in *.
    rewrite Hrec by done. simpl.
    rewrite IH; [|done|done|specialize (Hprog HE ltac:(done)); lia|done].
    simpl. by rewrite <- app_assoc.
Qed.

(** * The byte-order mark *)

Lemma byte_val_range c : (0 <= utf8.byte_val c < 256)%Z.
Proof. unfold utf8.byte_val. pose proof (N_ascii_bounded c). lia. Qed.

Lemma byte_val_inj c (n : Z) :
  utf8.byte_val c = n -> c = ascii_of_N (Z.to_N n).
Proof.
  intros <-. unfold utf8.byte_val. by rewrite N2Z.id, ascii_N_embedding.
Qed.

Lemma in_seqZ {P : Z -> Prop} {a n : Z} (x : Z) :
  Forall P (seqZ a n) -> (a <= x < a + n)%Z -> P x.
Proof. intros H Hx. eapply Forall_forall in H; [done|]. by apply elem_of_seqZ. Qed.

Lemma rune2_small :
  Forall (fun p0 => Forall (fun b1 => utf8.rune2 p0 b1 <> 0xFEFF%Z)
    (seqZ 0x80 64)) (seqZ 0xC2 30).
Proof. apply (bool_decide_unpack _). by vm_compute. Qed.

Lemma rune3_BOM :
  Forall (fun p0 => Forall (fun b1 => Forall (fun b2 =>
    utf8.rune3 p0 b1 b2 = 0xFEFF%Z -> p0 = 0xEF%Z /\ b1 = 0xBB%Z /\ b2 = 0xBF%Z)
    (seqZ 0x80 64)) (seqZ 0x80 64)) (seqZ 0xE0 16).
Proof. apply (bool_decide_unpack _). by vm_compute. Qed.

Lemma rune4_high_bits :
  Forall (fun p0 => Forall (fun b1 =>
    Z.lor (Z.shiftl (Z.land p0 utf8.mask4) 2) (Z.shiftr (Z.land b1 utf8.maskx) 4) = 0%Z ->
    p0 = 0xF0%Z /\ (b1 < 0x90)%Z)
    (seqZ 0x80 64)) (seqZ 0xF0 5).
Proof. apply (bool_decide_unpack _). by vm_compute. Qed.

Lemma rune4_large p0 b1 b2 b3 :
  (0xF0 <= p0 < 0xF5)%Z -> (0x80 <= b1 < 0xC0)%Z -> (0 <= b2 < 256)%Z -> (0 <= b3 < 256)%Z ->
  utf8.rune4 p0 b1 b2 b3 = 0xFEFF%Z -> p0 = 0xF0%Z /\ (b1 < 0x90)%Z.
Proof.
  intros Hp0 Hb1 Hb2 Hb3 H.
  apply (in_seqZ b1 (in_seqZ p0 rune4_high_bits ltac:(lia))); [lia|].
  apply (f_equal (fun x => Z.shiftr x 16)) in H. unfold utf8.rune4 in H.
  rewrite !Z.shiftr_lor in H. change (Z.shiftr 65279 16) with 0%Z in H.
  apply Z.lor_eq_0_iff in H as [H _]. apply Z.lor_eq_0_iff in H as [H _].
  rewrite Z.shiftr_shiftl_l, Z.shiftr_shiftl_r in H by lia.
  exact H.
Qed.

Lemma first_seq_inv p0 size lo hi :
  utf8.first p0 = utf8.first_seq size lo hi ->
  (0x80 <= lo)%Z /\ (hi <= 0xBF)%Z
  /\ ((size = 2 /\ (0xC2 <= p0 < 0xE0)%Z)
      \/ (size = 3 /\ (0xE0 <= p0 < 0xF0)%Z)
      \/ (size = 4 /\ (0xF0 <= p0 < 0xF5)%Z /\ (p0 = 0xF0%Z -> lo = 0x90%Z))).
Proof.
  unfold utf8.first.
  repeat (case_match; [intros [= <- <- <-] || intros [=]|]);
    try (intros [=]); repeat split; try lia;
    repeat match goal with
           | H : (_ <? _)%Z = true |- _ => apply Z.ltb_lt in H
           | H : (_ <? _)%Z = false |- _ => apply Z.ltb_ge in H
           | H : (_ =? _)%Z = true |- _ => apply Z.eqb_eq in H
           | H : (_ =? _)%Z = false |- _ => apply Z.eqb_neq in H
           end; lia.
Qed.

Lemma first_as_inv p0 : utf8.first p0 = utf8.first_as -> (p0 < 0x80)%Z.
Proof.
  unfold utf8.first. case_match eqn:H; [by apply Z.ltb_lt in H|].
  repeat (case_match; [intros [=]|]). intros [=].
Qed.

Lemma DecodeRune_BOM rest : utf8.DecodeRune (BOM ++ rest) = (0xFEFF%Z, 3).
Proof. reflexivity. Qed.

(** Only the three bytes EF BB BF decode to U+FEFF. *)
Lemma DecodeRune_FEFF p n :
  utf8.DecodeRune p = (0xFEFF%Z, n) -> exists rest, p = BOM ++ rest.
Proof.
  destruct p as [|c0 p1]; [intros [=]|]. unfold utf8.DecodeRune.
  pose proof (byte_val_range c0) as H0.
  destruct (utf8.first (utf8.byte_val c0)) as [| |size lo hi] eqn:Hf.
  - apply first_as_inv in Hf. intros [= Hrune _]. lia.
  - intros [=].
  - apply first_seq_inv in Hf as (Hlo & Hhi & Hsz).
    case_match; [intros [=]|].
    destruct p1 as [|c1 p2]; [intros [=]|].
    pose proof (byte_val_range c1) as H1.
    case_match eqn:Hb1; [intros [=]|].
    apply orb_false_iff in Hb1 as [Hb1l%Z.ltb_ge Hb1h%Z.ltb_ge].
    case_match eqn:Hs2.
    { intros [= Hrune _]. apply Nat.leb_le in Hs2.
      destruct Hsz as [[-> Hp]|[[-> _]|[-> _]]]; [|lia..].
      by destruct (in_seqZ (utf8.byte_val c1)
                    (in_seqZ (utf8.byte_val c0) rune2_small ltac:(lia)) ltac:(lia)). }
    destruct p2 as [|c2 p3]; [intros [=]|].
    pose proof (byte_val_range c2) as H2.
    case_match eqn:Hb2; [intros [=]|].
    apply orb_false_iff in Hb2 as [Hb2l%Z.ltb_ge Hb2h%Z.ltb_ge].
    unfold utf8.locb, utf8.hicb in *.
    case_match eqn:Hs3.
    { intros [= Hrune _]. apply Nat.leb_le in Hs3. apply Nat.leb_gt in Hs2.
      destruct Hsz as [[-> _]|[[_ Hp]|[-> _]]]; [lia| |lia].
      destruct (in_seqZ (utf8.byte_val c2)
                  (in_seqZ (utf8.byte_val c1)
                     (in_seqZ (utf8.byte_val c0) rune3_BOM ltac:(lia)) ltac:(lia))
                  ltac:(lia) Hrune) as (E0 & E1 & E2).
      apply byte_val_inj in E0, E1, E2. subst. by exists p3. }
    destruct p3 as [|c3 p4]; [intros [=]|].
    pose proof (byte_val_range c3) as H3.
    case_match; [intros [=]|].
    intros [= Hrune _]. apply Nat.leb_gt in Hs2, Hs3.
    destruct Hsz as [[-> _]|[[-> _]|[_ [Hp Hlo90]]]]; [lia..|].
    apply rune4_large in Hrune as [E0 Hlt]; [|lia..].
    specialize (Hlo90 E0). lia.
Qed.

Lemma strip_bom_BOM rest : strip_bom (BOM ++ rest) = rest.
Proof. reflexivity. Qed.

Lemma strip_bom_other input :
  (forall rest, input <> BOM ++ rest) -> strip_bom input = input.
Proof.
  intros H. destruct input as [|c0 [|c1 [|c2 rest]]]; try done.
  unfold strip_bom. case_decide as Hb; [|done].
  injection Hb as -> -> ->. by destruct (H rest).
Qed.

(** The reader [getCsvReader] builds: over the input without a leading
    byte-order mark. *)
Lemma getCsvReader_spec rd :
  io.content rd <> [] \/ io.at_end rd = EOF ->
  exists br,
    converter.getCsvReader rd = inr (csv.NewReader br)
    /\ main.getCsvReader rd = Returns (csv.NewReader br)
    /\ bufio.unread br = strip_bom (io.content rd)
    /\ bufio.rd_err br = io.at_end rd.
Proof.
  intros Hin. unfold converter.getCsvReader, main.getCsvReader, bufio.ReadRune, bufio.NewReader.
  simpl. destruct (io.content rd) as [|c l] eqn:Hc.
  - destruct Hin as [|Hin]; [done|]. rewrite Hin. simpl. eauto.
  - set (p := c :: l) in *.
    destruct (utf8.DecodeRune p) as [rn size] eqn:Hd.
    destruct (decide (rn = 0xFEFF%Z)) as [->|Hne].
    + apply DecodeRune_FEFF in Hd as Hp. destruct Hp as [rest Hp].
      rewrite Hp, DecodeRune_BOM in Hd. injection Hd as <-.
      rewrite decide_False by (intros ?; done). rewrite Hp.
      eexists. split; [done|]. split; [done|]. by split.
    + rewrite decide_True by done.
      unfold bufio.UnreadRune. simpl.
      replace (Z.of_nat size <? 0)%Z with false by (symmetry; apply Z.ltb_ge; lia).
      simpl. rewrite take_drop.
      eexists. split; [done|]. split; [done|]. split; [|done]. simpl.
      symmetry. apply strip_bom_other. intros rest Hp.
      rewrite Hp, DecodeRune_BOM in Hd. by injection Hd as <-.
Qed.

(** A failed first read other than end of input. *)
Lemma getCsvReader_read_error rd e :
  io.content rd = [] -> io.at_end rd = e -> e <> EOF ->
  converter.getCsvReader rd = inl e /\ main.getCsvReader rd = Exits e.
Proof.
  intros Hc He Hne.
  unfold converter.getCsvReader, main.getCsvReader, bufio.ReadRune, bufio.NewReader.
  simpl. rewrite Hc, He. simpl. by case_decide.
Qed.

(** * The whole conversion *)

Lemma length_strip_bom input : length (strip_bom input) <= length input.
Proof.
  unfold strip_bom. destruct input as [|c0 [|c1 [|c2 rest]]]; try done.
  case_decide; simpl; lia.
Qed.

Lemma getCsvReader_reader rd reader :
  io.at_end rd = EOF -> converter.getCsvReader rd = inr reader ->
  csv.FieldsPerRecord reader = 0%Z /\ ends_in_EOF reader
  /\ input_left reader <= length (io.content rd)
  /\ bufio.unread (csv.r reader) = strip_bom (io.content rd)
  /\ main.getCsvReader rd = Returns reader.
Proof.
  intros HE Hget.
  destruct (getCsvReader_spec rd) as (br & Hc & Hm & Hu & Hterm); [by right|].
  rewrite Hc in Hget. injection Hget as <-.
  split; [done|]. split; [unfold ends_in_EOF; simpl; congruence|].
  split; [|by split]. unfold input_left. simpl. rewrite Hu. apply length_strip_bom.
Qed.

Lemma set_FieldsPerRecord_id n rd :
  csv.FieldsPerRecord rd = n -> csv.set_FieldsPerRecord n rd = rd.
Proof. intros <-. by destruct rd. Qed.

(** After the column names are resolved the reader checks rows against
    them, and no input was gained. *)
Lemma resolved_fits override reader cols rd :
  csv.FieldsPerRecord reader = 0%Z -> ends_in_EOF reader ->
  resolved override reader cols rd ->
  fits cols rd /\ ends_in_EOF rd /\ input_left rd <= input_left reader
  /\ csv.set_FieldsPerRecord (Z.of_nat (length cols)) rd = rd.
Proof.
  intros HF HE [Hne|row rd' -> HR|row rd' -> HR].
  - split; [by right|]. by repeat split.
  - apply Read_spec in HR as (HE' & Hle & _ & _ & HF' & _).
    specialize (HF' HF ltac:(done)).
    split; [by right|]. split; [by unfold ends_in_EOF; rewrite HE'|]. split; [done|].
    by apply set_FieldsPerRecord_id.
  - apply Read_spec in HR as (HE' & Hle & _ & _ & _ & HEOF).
    destruct (HEOF eq_refl) as [_ HF'].
    split; [by left|]. split; [by unfold ends_in_EOF; rewrite HE'|]. split; [done|].
    apply set_FieldsPerRecord_id. by rewrite HF', HF.
Qed.

Lemma Instrument_spec fuel o reader cols rd :
  io.at_end (converter.CsvInput o) = EOF ->
  converter.getCsvReader (converter.CsvInput o) = inr reader ->
  resolved (converter.ColNames o) reader cols rd ->
  converter.SkipErrors o = true \/ row_errors (rows_of rd) = [] ->
  length (io.content (converter.CsvInput o)) < fuel ->
  converter.Instrument fuel o
  = let records := map (build_record cols) (good_rows (rows_of rd)) in
    let '(err, w) := json.Encode (converter.JsonOutput o) records in
    Returns (err, converter.mkOptions cols (converter.CsvInput o) w (converter.SkipErrors o)
                    (converter.Logger o ++ kit_diagnostics (row_errors (rows_of rd)))).
Proof.
  intros HEOF Hget Hres Hskip Hfuel.
  destruct (getCsvReader_reader _ _ HEOF Hget) as (HF & HE & Hlen & _).
  destruct (resolved_fits _ _ _ _ HF HE Hres) as (Hfit & HE' & Hle & Hset).
  unfold converter.Instrument. rewrite Hget.
  assert (forall o', converter.ColNames o' = cols ->
            converter.SkipErrors o' = converter.SkipErrors o ->
            converter.buildRecords fuel rd o'
            = Returns ((map (build_record cols) (good_rows (rows_of rd)), None),
                       converter.Logger o' ++ kit_diagnostics (row_errors (rows_of rd))))
    as Hbuild.
  { intros o' Hcols Hsk. unfold converter.buildRecords.
    rewrite buildRecords_loop_spec; [|done|by rewrite Hcols|lia|by rewrite Hsk].
    simpl. rewrite Hcols. unfold kit_diagnostics.
    case_decide; by rewrite <- ?app_assoc, ?app_nil_r. }
  destruct Hres as [Hne|row rd' Hov HR|row rd' Hov HR].
  - rewrite decide_False by (by destruct (converter.ColNames o)).
    rewrite Hbuild by done. simpl.
    destruct (json.Encode _ _) as [err w]. by destruct o.
  - rewrite decide_True by (by rewrite Hov).
    unfold converter.parseColumnNames. rewrite HR. simpl. rewrite Hset.
    rewrite Hbuild by done. simpl.
    by destruct (json.Encode _ _) as [err w].
  - rewrite decide_True by (by rewrite Hov).
    unfold converter.parseColumnNames. rewrite HR.
    apply Read_spec in HR as (_ & _ & _ & _ & _ & Hnil).
    destruct (Hnil eq_refl) as [-> _]. simpl. simpl in Hset. rewrite Hset.
    rewrite Hbuild by done. simpl.
    by destruct (json.Encode _ _) as [err w].
Qed.

Lemma csv2Json_from_spec fuel reader override cols rd w skip stdlog :
  csv.FieldsPerRecord reader = 0%Z -> ends_in_EOF reader ->
  resolved override reader cols rd ->
  skip = true \/ row_errors (rows_of rd) = [] ->
  input_left reader < fuel ->
  csv2Json_from fuel reader override w skip stdlog
  = let records := map (build_record cols) (good_rows (rows_of rd)) in
    let '(err, w') := json.Encode w records in
    Returns (err, w', stdlog ++ (if skip then printf_diagnostics (row_errors (rows_of rd))
                                 else [])).
Proof.
  intros HF HE Hres Hskip Hfuel.
  destruct (resolved_fits _ _ _ _ HF HE Hres) as (Hfit & HE' & Hle & Hset).
  unfold csv2Json_from.
  assert (csv2Json_rows fuel rd cols skip stdlog 0 []
          = Returns (None, length (row_errors (rows_of rd)),
                     map (build_record cols) (good_rows (rows_of rd)),
                     stdlog ++ map PrintfError (row_errors (rows_of rd)))) as Hrows.
  { rewrite csv2Json_rows_spec; [done|done|done|lia|done]. }
  assert (forall l : list log_entry,
            (if bool_decide (skip = true /\ 0 < length (row_errors (rows_of rd)))
             then (stdlog ++ l) ++ [PrintfSkipped (length (row_errors (rows_of rd)))]
             else stdlog ++ l)
            = stdlog ++ l ++ (if skip then
                                if decide (0 < length (row_errors (rows_of rd)))
                                then [PrintfSkipped (length (row_errors (rows_of rd)))]
                                else []
                              else [])) as Hdefer.
  { intros l. destruct skip.
    - case_decide as Hpos.
      + rewrite bool_decide_eq_true_2 by done. by rewrite <- app_assoc.
      + rewrite bool_decide_eq_false_2 by (by intros [_ ?]). by rewrite app_nil_r.
    - rewrite bool_decide_eq_false_2 by (by intros [? _]). by rewrite app_nil_r. }
  assert (skip = false -> row_errors (rows_of rd) = []) as Hnoerr.
  { intros ->. by destruct Hskip. }
  destruct Hres as [Hne|row rd' Hov HR|row rd' Hov HR].
  - rewrite decide_False by (by destruct override).
    rewrite Hrows. simpl. destruct (json.Encode _ _) as [err w'].
    rewrite Hdefer. unfold printf_diagnostics.
    destruct skip; [done|]. by rewrite Hnoerr.
  - rewrite decide_True by (by rewrite Hov). rewrite HR.
    rewrite Hrows. simpl. destruct (json.Encode _ _) as [err w'].
    rewrite Hdefer. unfold printf_diagnostics.
    destruct skip; [done|]. by rewrite Hnoerr.
  - rewrite decide_True by (by rewrite Hov). rewrite HR. simpl. rewrite Hov.
    rewrite Hrows. simpl. destruct (json.Encode _ _) as [err w'].
    rewrite Hdefer. unfold printf_diagnostics.
    destruct skip; [done|]. by rewrite Hnoerr.
Qed.

(** * Rows without errors, and their lengths *)

Lemma good_rows_all rows : row_errors rows = [] -> good_rows rows = map fst rows.
Proof.
  induction rows as [|[row [e|]] rows IH]; [done| |].
  - rewrite row_errors_cons. done.
  - rewrite row_errors_cons, good_rows_cons. intros H. simpl. by rewrite IH.
Qed.

Lemma row_errors_length rows :
  length (good_rows rows) + length (row_errors rows) = length rows.
Proof.
  induction rows as [|[row [e|]] rows IH]; [done| |];
    rewrite row_errors_cons, good_rows_cons; simpl; lia.
Qed.

Lemma read_all_row_length fuel rd row :
  (0 < csv.FieldsPerRecord rd)%Z -> row ∈ good_rows (read_all fuel rd) ->
  Z.of_nat (length row) = csv.FieldsPerRecord rd.
Proof.
  revert rd. induction fuel as [|fuel IH]; intros rd HF; simpl; [by intros ?%elem_of_nil|].
  destruct (csv.Read rd) as [[row' err] rd'] eqn:HR.
  apply Read_spec in HR as (_ & _ & _ & Hpos & _). destruct (Hpos HF) as [HF' Hlen].
  case_decide; [by intros ?%elem_of_nil|].
  rewrite good_rows_cons. destruct err as [e|].
  - intros Hin. rewrite <- HF'. apply IH; [lia|done].
  - intros [->|Hin]%elem_of_cons; [by apply Hlen|].
    rewrite <- HF'. apply IH; [lia|done].
Qed.

Lemma rows_of_at_end rd :
  ends_in_EOF rd -> bufio.unread (csv.r rd) = [] -> rows_of rd = [].
Proof.
  intros HE Hu. unfold rows_of. simpl.
  destruct (csv.Read rd) as [[row err] rd'] eqn:HR.
  apply Read_spec in HR as (_ & _ & Hprog & _).
  case_decide as Herr; [done|]. specialize (Hprog HE Herr).
  unfold input_left in Hprog. rewrite Hu in Hprog. simpl in Hprog. lia.
Qed.

(** * Reading an input that is a single line *)

Lemma split_after_None delim s : delim ∉ s -> bufio.split_after delim s = None.
Proof.
  induction s as [|c s IH]; [done|]. intros Hnot. simpl.
  rewrite decide_False by (intros ->; apply Hnot; left).
  rewrite IH; [done|]. intros Hin. apply Hnot. by right.
Qed.

Lemma IndexByte_None s c : c ∉ s -> csv.IndexByte s c = None.
Proof.
  induction s as [|x s IH]; [done|]. intros Hnot. simpl.
  rewrite decide_False by (intros ->; apply Hnot; left).
  rewrite IH; [done|]. intros Hin. apply Hnot. by right.
Qed.

Lemma last_elem_of {A} (l : list A) x : last l = Some x -> x ∈ l.
Proof.
  intros H. apply last_Some in H as [l' ->]. apply elem_of_app. right. left.
Qed.

Lemma lengthNL_no_LF l : csv.LF ∉ l -> csv.lengthNL l = 0.
Proof.
  intros H. unfold csv.lengthNL. case_decide as Hl; [|done].
  by apply last_elem_of in Hl.
Qed.

Lemma normalizeNL_no_LF l : csv.LF ∉ l -> csv.normalizeNL l = l.
Proof.
  intros H. unfold csv.normalizeNL.
  destruct (reverse l) as [|c1 [|c2 l']] eqn:Hr; [done..|].
  case_bool_decide as Hc; [|done]. destruct Hc as [_ ->].
  destruct H. apply elem_of_reverse. rewrite Hr. left.
Qed.

Lemma dropCR_subseteq l c : c ∉ l -> c ∉ csv.dropCR l.
Proof.
  unfold csv.dropCR. case_decide; [|done].
  intros Hnot Hin. apply Hnot.
  apply elem_of_take in Hin as (i & Hi & _). by eapply list_elem_of_lookup_2.
Qed.

Lemma readLine_last_line rd :
  ends_in_EOF rd -> csv.LF ∉ bufio.unread (csv.r rd) ->
  exists rd1,
    bufio.unread (csv.r rd1) = [] /\ ends_in_EOF rd1
    /\ csv.FieldsPerRecord rd1 = csv.FieldsPerRecord rd
    /\ csv.readLine rd
       = (match bufio.unread (csv.r rd) with
          | [] => ([], Some EOF)
          | _ :: _ => (csv.dropCR (bufio.unread (csv.r rd)), None)
          end, rd1).
Proof.
  intros HE HLF.
  exists {| csv.r := {| bufio.unread := []; bufio.rd_err := bufio.rd_err (csv.r rd);
                        bufio.lastRune := []; bufio.lastRuneSize := -1 |};
            csv.numLine := S (csv.numLine rd);
            csv.FieldsPerRecord := csv.FieldsPerRecord rd |}.
  split; [done|]. split; [done|]. split; [done|].
  unfold csv.readLine, bufio.ReadSlice.
  rewrite split_after_None by done. rewrite HE.
  destruct (bufio.unread (csv.r rd)) as [|c l] eqn:Hu.
  - by rewrite bool_decide_eq_false_2 by (simpl; lia).
  - rewrite bool_decide_eq_true_2 by (simpl; split; [lia|done]).
    by rewrite normalizeNL_no_LF by (by apply dropCR_subseteq).
Qed.

(** * Row errors without skipping *)

(** [buildRecords] has no path that returns an error. *)
Lemma buildRecords_returns_nil_error fuel reader o records err logger :
  converter.buildRecords fuel reader o = Returns ((records, err), logger) -> err = None.
Proof.
  unfold converter.buildRecords.
  destruct (converter.buildRecords_loop fuel reader o (converter.Logger o) 0 [])
    as [[[skipped recs] lg]| | |]; simpl; [|done..].
  by intros [= _ <- _].
Qed.

(** C1.  The claim: when a data row has a parse error and [SkipErrors] is
    false, the driver aborts, returns that error and writes nothing.  On
    the input of the test [Errors abort conversion], [Instrument] returns
    nil and writes the records read before the bad row: the error tested
    in the loop of [buildRecords] is a variable of the loop body, and the
    named result [err] stays nil. *)
Theorem Instrument_row_error_not_propagated :
  converter.Instrument 100 (example_options [] rows_with_bad_line false)
  = Returns (None,
             converter.mkOptions ["a"; "b"; "c"] (string_reader rows_with_bad_line)
               (io.mkWriter (dq "[{'a':'1','b':'2','c':'3'}]" ++ [csv.LF]) None)
               false []).
Proof. by vm_compute. Qed.

(** The sibling [csv2Json] aborts on the same input and writes nothing. *)
Lemma csv2Json_row_error_propagated :
  converter.csv2Json 100 (example_options [] rows_with_bad_line false) []
  = Returns (Some (ParseError 3 3 1 ErrFieldCount), new_buffer, [])
  /\ main.csv2Json 100
       (main.mkOptions [] (string_reader rows_with_bad_line) new_buffer false) []
     = Returns (Some (ParseError 3 3 1 ErrFieldCount), new_buffer, []).
Proof. split; by vm_compute. Qed.

(** C3.  The claim: a first read that fails with an error other than end
    of input is returned to the caller, and the process is not terminated.
    [getCsvReader] of package main (0.2.0 and 0.3.0) ends the process with
    [log.Fatal] on such a reader; the one of package converter returns the
    error ([converter_getCsvReader_read_error_returned]). *)
Theorem main_getCsvReader_read_error_exits :
  main.getCsvReader (io.mkReader [] (ErrOther "read failed"))
  = Exits (ErrOther "read failed").
Proof. reflexivity. Qed.

Lemma converter_getCsvReader_read_error_returned rd e :
  io.content rd = [] -> io.at_end rd = e -> e <> EOF ->
  converter.getCsvReader rd = inl e.
Proof. intros. by apply getCsvReader_read_error. Qed.

(** C4.  With no column override, an error other than end of input on the
    read of the header row is returned by the conversion, whatever
    [SkipErrors] is, and nothing is written; so for [Instrument] and for
    [csv2Json]. *)
Theorem header_error_always_fatal (fuel : nat) (o : converter.Options)
    (reader : csv.Reader) (row : list string) (e : error) (rd : csv.Reader)
    (stdlog : list log_entry) :
  converter.ColNames o = [] ->
  converter.getCsvReader (converter.CsvInput o) = inr reader ->
  csv.Read reader = ((row, Some e), rd) ->
  e <> EOF ->
  converter.Instrument fuel o = Returns (Some e, o)
  /\ converter.csv2Json fuel o stdlog = Returns (Some e, converter.JsonOutput o, stdlog).
Proof.
  intros Hcols Hget HR Hne. split.
  - unfold converter.Instrument. rewrite Hget, Hcols. simpl.
    unfold converter.parseColumnNames. rewrite HR.
    by rewrite decide_False.
  - unfold converter.csv2Json, csv2Json_from. rewrite Hget, Hcols. simpl.
    rewrite HR. by rewrite decide_False.
Qed.

Lemma header_error_always_fatal_witness :
  converter.Instrument 100 (example_options [] bad_header true)
  = Returns (Some (ParseError 1 3 7 ErrQuote), example_options [] bad_header true)
  /\ converter.csv2Json 100 (example_options [] bad_header true) []
     = Returns (Some (ParseError 1 3 7 ErrQuote), new_buffer, []).
Proof.
  eapply (header_error_always_fatal 100 (example_options [] bad_header true) _ _ _ _ []).
  - reflexivity.
  - vm_compute. reflexivity.
  - vm_compute. reflexivity.
  - discriminate.
Defined.

(** C5.  With [SkipErrors] on and an input that ends in EOF, once the
    column names are resolved: every data row with an error gives no record
    and one diagnostic, the rows without error are converted in input order,
    and one summary with the number of skipped rows follows when that number
    is positive; so for [Instrument] (through [buildRecords]) and for
    [csv2Json]. *)
Theorem skipped_rows_counted_and_reported (fuel : nat) (o : converter.Options)
    (reader : csv.Reader) (cols : list string) (rd : csv.Reader)
    (stdlog : list log_entry) :
  converter.SkipErrors o = true ->
  io.at_end (converter.CsvInput o) = EOF ->
  converter.getCsvReader (converter.CsvInput o) = inr reader ->
  resolved (converter.ColNames o) reader cols rd ->
  length (io.content (converter.CsvInput o)) < fuel ->
  let rows := rows_of rd in
  let records := map (build_record cols) (good_rows rows) in
  let errs := row_errors rows in
  converter.Instrument fuel o
  = (let '(err, w) := json.Encode (converter.JsonOutput o) records in
     Returns (err, converter.mkOptions cols (converter.CsvInput o) w true
                     (converter.Logger o ++ kit_diagnostics errs)))
  /\ converter.csv2Json fuel o stdlog
     = (let '(err, w) := json.Encode (converter.JsonOutput o) records in
        Returns (err, w, stdlog ++ printf_diagnostics errs))
  /\ length records + length errs = length rows.
Proof.
  intros Hskip HEOF Hget Hres Hfuel rows records errs.
  destruct (getCsvReader_reader _ _ HEOF Hget) as (HF & HE & Hlen & _).
  split; [|split].
  - rewrite (Instrument_spec fuel o reader cols rd) by (done || by left).
    by rewrite Hskip.
  - unfold converter.csv2Json. rewrite Hget.
    rewrite (csv2Json_from_spec fuel reader _ cols rd); [|done|done|done|by left|lia].
    by rewrite Hskip.
  - unfold records. rewrite length_map. apply row_errors_length.
Qed.

Lemma skipped_rows_counted_and_reported_witness :
  converter.Instrument 100 (example_options [] rows_with_bad_line true)
  = Returns (None,
             converter.mkOptions ["a"; "b"; "c"] (string_reader rows_with_bad_line)
               (io.mkWriter
                  (dq "[{'a':'1','b':'2','c':'3'},{'a':'z','b':'y','c':'x'}]" ++ [csv.LF])
                  None)
               true
               [KitError "Skipped parsing error" (ParseError 3 3 1 ErrFieldCount);
                KitInfo "Skipped lines (rows) due to parsing errors" 1])
  /\ converter.csv2Json 100 (example_options [] rows_with_bad_line true) []
     = Returns (None,
                io.mkWriter
                  (dq "[{'a':'1','b':'2','c':'3'},{'a':'z','b':'y','c':'x'}]" ++ [csv.LF])
                  None,
                [PrintfError (ParseError 3 3 1 ErrFieldCount); PrintfSkipped 1])
  /\ 2 + 1 = 3.
Proof.
  destruct (skipped_rows_counted_and_reported 100
              (example_options [] rows_with_bad_line true)
              (reader_of (string_reader rows_with_bad_line))
              (header_of (string_reader rows_with_bad_line))
              (after_header (string_reader rows_with_bad_line)) [])
    as (H1 & H2 & H3).
  - reflexivity.
  - reflexivity.
  - by vm_compute.
  - apply resolved_header; [reflexivity|]. by vm_compute.
  - vm_compute. lia.
  - vm_compute in H1, H2, H3 |- *. split; [exact H1|]. split; [exact H2|exact H3].
Defined.

(** C6.  When the first read does not fail, [getCsvReader] returns a reader
    over the input without the byte-order mark that starts it (the three
    bytes of U+FEFF), and over the unchanged input when it starts with
    anything else. *)
Theorem getCsvReader_strips_leading_BOM (rd : io.Reader) :
  io.content rd <> [] \/ io.at_end rd = EOF ->
  exists br,
    converter.getCsvReader rd = inr (csv.NewReader br)
    /\ bufio.unread br = strip_bom (io.content rd)
    /\ bufio.rd_err br = io.at_end rd
    /\ (forall rest, io.content rd = BOM ++ rest -> bufio.unread br = rest)
    /\ ((forall rest, io.content rd <> BOM ++ rest) -> bufio.unread br = io.content rd).
Proof.
  intros Hin. destruct (getCsvReader_spec rd Hin) as (br & Hc & _ & Hu & He).
  exists br. split; [done|]. split; [done|]. split; [done|]. split.
  - intros rest Hrest. by rewrite Hu, Hrest, strip_bom_BOM.
  - intros Hno. rewrite Hu. by apply strip_bom_other.
Qed.

Lemma getCsvReader_strips_leading_BOM_witness :
  exists br,
    converter.getCsvReader (io.mkReader (BOM ++ bytes ("a,b" +:+ nl +:+ "1,2" +:+ nl)) EOF)
    = inr (csv.NewReader br)
    /\ bufio.unread br = bytes ("a,b" +:+ nl +:+ "1,2" +:+ nl)
    /\ bufio.rd_err br = EOF
    /\ (forall rest, BOM ++ bytes ("a,b" +:+ nl +:+ "1,2" +:+ nl) = BOM ++ rest ->
        bufio.unread br = rest)
    /\ ((forall rest, BOM ++ bytes ("a,b" +:+ nl +:+ "1,2" +:+ nl) <> BOM ++ rest) ->
        bufio.unread br = BOM ++ bytes ("a,b" +:+ nl +:+ "1,2" +:+ nl)).
Proof.
  apply (getCsvReader_strips_leading_BOM
           (io.mkReader (BOM ++ bytes ("a,b" +:+ nl +:+ "1,2" +:+ nl)) EOF)).
  left. discriminate.
Defined.

(** The mark reaches no key and no value. *)
Lemma BOM_not_in_output :
  converter.Instrument 100
    (converter.mkOptions []
       (io.mkReader (BOM ++ bytes ("a,b" +:+ nl +:+ "1,2" +:+ nl)) EOF) new_buffer false [])
  = Returns (None,
             converter.mkOptions ["a"; "b"]
               (io.mkReader (BOM ++ bytes ("a,b" +:+ nl +:+ "1,2" +:+ nl)) EOF)
               (io.mkWriter (dq "[{'a':'1','b':'2'}]" ++ [csv.LF]) None) false []).
Proof. by vm_compute. Qed.

Lemma Encode_ok w records :
  io.broken w = None ->
  json.Encode w records
  = (None, io.mkWriter (io.written w ++ json.Marshal records ++ [csv.LF]) None).
Proof. intros H. unfold json.Encode, io.Write. by rewrite H. Qed.

(** C7.  With no column override, a header row and [N] data rows that all
    read without error, the conversion succeeds and writes the JSON array of
    the [N] records, the [i]-th record built from the [i]-th data row; so
    for [Instrument] and for [csv2Json] of package main. *)
Theorem well_formed_input_gives_one_object_per_row (fuel : nat) (o : converter.Options)
    (reader : csv.Reader) (header : list string) (rd : csv.Reader)
    (stdlog : list log_entry) :
  converter.ColNames o = [] ->
  io.at_end (converter.CsvInput o) = EOF ->
  io.broken (converter.JsonOutput o) = None ->
  converter.getCsvReader (converter.CsvInput o) = inr reader ->
  csv.Read reader = ((header, None), rd) ->
  row_errors (rows_of rd) = [] ->
  length (io.content (converter.CsvInput o)) < fuel ->
  let records := map (fun r => build_record header r.1) (rows_of rd) in
  let out :=
    io.mkWriter (io.written (converter.JsonOutput o) ++ json.Marshal records ++ [csv.LF])
      None in
  length records = length (rows_of rd)
  /\ (forall i r, rows_of rd !! i = Some r -> records !! i = Some (build_record header r.1))
  /\ converter.Instrument fuel o
     = Returns (None, converter.mkOptions header (converter.CsvInput o) out
                        (converter.SkipErrors o) (converter.Logger o))
  /\ main.csv2Json fuel
       (main.mkOptions [] (converter.CsvInput o) (converter.JsonOutput o)
          (converter.SkipErrors o)) stdlog
     = Returns (None, out, stdlog).
Proof.
  intros Hcols HEOF Hw Hget HR Hgood Hfuel records out.
  destruct (getCsvReader_reader _ _ HEOF Hget) as (HF & HE & Hlen & _ & Hmain).
  assert (resolved [] reader header rd) as Hres by (by apply resolved_header).
  assert (map (build_record header) (good_rows (rows_of rd)) = records) as Hrec.
  { rewrite good_rows_all by done. unfold records. by rewrite map_map. }
  split; [by unfold records; rewrite length_map|]. split.
  { intros i r Hi. unfold records. by rewrite list_lookup_fmap, Hi. }
  split.
  - rewrite (Instrument_spec fuel o reader header rd); [|done|done|by rewrite Hcols|by right|done].
    rewrite Hrec, Hgood. cbn zeta. rewrite Encode_ok by done.
    unfold kit_diagnostics. simpl. by rewrite app_nil_r.
  - unfold main.csv2Json. simpl. rewrite Hmain. simpl.
    rewrite (csv2Json_from_spec fuel reader _ header rd); [|done|done|done|by right|lia].
    rewrite Hrec, Hgood. cbn zeta. rewrite Encode_ok by done.
    unfold printf_diagnostics. simpl. destruct (converter.SkipErrors o); by rewrite app_nil_r.
Qed.

Lemma well_formed_input_gives_one_object_per_row_witness :
  let records : list (gmap string string) :=
    [ {[ "a" := "1"; "b" := "2"; "c" := "3" ]}; {[ "a" := "z"; "b" := "y"; "c" := "x" ]} ] in
  let out :=
    io.mkWriter (dq "[{'a':'1','b':'2','c':'3'},{'a':'z','b':'y','c':'x'}]" ++ [csv.LF])
      None in
  length records = 2
  /\ converter.Instrument 100 (example_options [] three_lines false)
     = Returns (None, converter.mkOptions ["a"; "b"; "c"] (string_reader three_lines) out
                        false [])
  /\ main.csv2Json 100 (main.mkOptions [] (string_reader three_lines) new_buffer false) []
     = Returns (None, out, []).
Proof.
  destruct (well_formed_input_gives_one_object_per_row 100
              (example_options [] three_lines false)
              (reader_of (string_reader three_lines))
              (header_of (string_reader three_lines))
              (after_header (string_reader three_lines)) [])
    as (H1 & _ & H2 & H3).
  - reflexivity.
  - reflexivity.
  - reflexivity.
  - by vm_compute.
  - by vm_compute.
  - by vm_compute.
  - vm_compute. lia.
  - vm_compute in H1, H2, H3 |- *. split; [exact H1|]. split; [exact H2|exact H3].
Defined.

(** * White space *)

Lemma is_space_cases c :
  is_space c -> c <> csv.Quote /\ c <> csv.Comma /\ c <> "239"%char.
Proof.
  unfold is_space. rewrite !elem_of_cons, elem_of_nil.
  intros [->|[->|[->|[->|[->|[->|[]]]]]]]; by repeat split.
Qed.

Lemma spaces_no_byte ws c :
  Forall is_space ws -> ~ is_space c -> c ∉ ws.
Proof. intros Hws Hc Hin. apply Hc. by eapply Forall_forall in Hws. Qed.

Lemma spaces_no_BOM ws : Forall is_space ws -> strip_bom ws = ws.
Proof.
  intros Hws. apply strip_bom_other. intros rest ->.
  apply Forall_cons in Hws as [Hc _]. by apply is_space_cases in Hc as (_ & _ & ?).
Qed.

(** The empty input: no columns, no records. *)
Lemma empty_input_converts_to_empty_array :
  converter.Instrument 100 (example_options [] "" false)
  = Returns (None,
             converter.mkOptions [] (string_reader "")
               (io.mkWriter (dq "[]" ++ [csv.LF]) None) false []).
Proof. by vm_compute. Qed.

(** * A source that keeps failing *)

(** At the end of a source that fails with an error other than EOF, every
    [Read] reports that error again and nothing changes. *)
Lemma Read_failing_source rd msg :
  bufio.unread (csv.r rd) = [] -> bufio.rd_err (csv.r rd) = ErrOther msg ->
  exists row rd',
    csv.Read rd = ((row, Some (ErrOther msg)), rd')
    /\ bufio.unread (csv.r rd') = [] /\ bufio.rd_err (csv.r rd') = ErrOther msg.
Proof.
  destruct rd as [[u e lr ls] n f]. simpl. intros -> ->.
  unfold csv.Read, csv.fuel_for, csv.readRecord. simpl.
  destruct (0 <? f)%Z.
  - rewrite bool_decide_eq_false_2 by (by intros [_ ?]). eauto.
  - destruct (f =? 0)%Z; eauto.
Qed.

(** With [SkipErrors] on, the row loops do not end on such a source. *)
Lemma skip_errors_never_ends_on_failing_source fuel reader o logger skipped records msg :
  converter.SkipErrors o = true ->
  bufio.unread (csv.r reader) = [] -> bufio.rd_err (csv.r reader) = ErrOther msg ->
  converter.buildRecords_loop fuel reader o logger skipped records = Timeout
  /\ csv2Json_rows fuel reader (converter.ColNames o) true logger skipped records = Timeout.
Proof.
  intros Hskip. revert reader logger skipped.
  induction fuel as [|fuel IH]; intros reader logger skipped Hu He; [done|].
  destruct (Read_failing_source reader msg Hu He) as (row & rd' & HR & Hu' & He').
  simpl. rewrite HR, Hskip. simpl.
  destruct (IH rd' (logger ++ [KitError "Skipped parsing error" (ErrOther msg)])
              (S skipped) Hu' He') as [-> _].
  by destruct (IH rd' (logger ++ [PrintfError (ErrOther msg)]) (S skipped) Hu' He')
    as [_ ->].
Qed.

(** * Rows up to the first error *)

Lemma rows_before_error_cons row err rows :
  rows_before_error ((row, err) :: rows)
  = match err with None => row :: rows_before_error rows | Some _ => [] end.
Proof. by destruct err. Qed.

Lemma first_row_error_cons row err rows :
  first_row_error ((row, err) :: rows)
  = match err with None => first_row_error rows | Some e => Some e end.
Proof. unfold first_row_error. rewrite row_errors_cons. by destruct err. Qed.

Lemma rows_before_error_all rows :
  row_errors rows = [] -> rows_before_error rows = good_rows rows.
Proof.
  induction rows as [|[row [e|]] rows IH]; [done| |].
  - by rewrite row_errors_cons.
  - rewrite row_errors_cons, good_rows_cons, rows_before_error_cons.
    intros H. by rewrite IH.
Qed.

Lemma first_row_error_None rows : first_row_error rows = None <-> row_errors rows = [].
Proof. unfold first_row_error. by destruct (row_errors rows). Qed.

(** * The row loops without skipping *)

Lemma buildRecords_loop_stop fuel reader o logger skipped records :
  ends_in_EOF reader -> fits (converter.ColNames o) reader -> input_left reader < fuel ->
  converter.SkipErrors o = false ->
  converter.buildRecords_loop fuel reader o logger skipped records
  = Returns (skipped,
             records ++ map (build_record (converter.ColNames o))
                            (rows_before_error (rows_of reader)),
             logger).
Proof.
  revert reader records.
  induction fuel as [|fuel IH]; intros reader records HE Hfit Hfuel Hskip; [lia|].
  simpl. destruct (csv.Read reader) as [[row err] rd'] eqn:HR.
  destruct (rows_of_Read _ _ _ _ HE HR) as [HE' Hrows].
  destruct (fits_Read _ _ _ _ _ Hfit HR) as [Hfit' Hrec].
  pose proof (Read_spec _ _ _ _ HR) as (_ & _ & Hprog & _).
  rewrite Hrows. clear Hrows.
  destruct err as [e|].
  - destruct (decide (e = EOF)) as [->|Hne].
    + rewrite decide_True by done. simpl. by rewrite app_nil_r.
    + rewrite decide_False by congruence.
      rewrite rows_before_error_cons, Hskip. simpl. by rewrite app_nil_r.
  - rewrite decide_False by done.
    rewrite rows_before_error_cons.
    rewrite Hrec by done. simpl.
    rewrite IH; [|done|done|specialize (Hprog HE ltac:(done)); lia|done].
    simpl. by rewrite <- app_assoc.
Qed.

Lemma csv2Json_rows_stop fuel reader colNames stdlog n allRecords :
  ends_in_EOF reader -> fits colNames reader -> input_left reader < fuel ->
  csv2Json_rows fuel reader colNames false stdlog n allRecords
  = Returns (first_row_error (rows_of reader), n,
             allRecords ++ map (build_record colNames) (rows_before_error (rows_of reader)),
             stdlog).
Proof.
  revert reader allRecords.
  induction fuel as [|fuel IH]; intros reader allRecords HE Hfit Hfuel; [lia|].
  simpl. destruct (csv.Read reader) as [[row err] rd'] eqn:HR.
  destruct (rows_of_Read _ _ _ _ HE HR) as [HE' Hrows].
  destruct (fits_Read _ _ _ _ _ Hfit HR) as [Hfit' Hrec].
  pose proof (Read_spec _ _ _ _ HR) as (_ & _ & Hprog & _).
  rewrite Hrows. clear Hrows.
  destruct err as [e|].
  - destruct (decide (e = EOF)) as [->|Hne].
    + rewrite decide_True by done. simpl. by rewrite app_nil_r.
    + rewrite decide_False by congruence.
      rewrite rows_before_error_cons, first_row_error_cons. simpl. by rewrite app_nil_r.
  - rewrite decide_False by done.
    rewrite rows_before_error_cons, first_row_error_cons.
    rewrite Hrec by done. simpl.
    rewrite IH; [|done|done|specialize (Hprog HE ltac:(done)); lia].
    simpl. by rewrite <- app_assoc.
Qed.

(** * The whole conversion without skipping *)

Lemma Instrument_stop fuel o reader cols rd :
  io.at_end (converter.CsvInput o) = EOF ->
  converter.getCsvReader (converter.CsvInput o) = inr reader ->
  resolved (converter.ColNames o) reader cols rd ->
  converter.SkipErrors o = false ->
  length (io.content (converter.CsvInput o)) < fuel ->
  converter.Instrument fuel o
  = let records := map (build_record cols) (rows_before_error (rows_of rd)) in
    let '(err, w) := json.Encode (converter.JsonOutput o) records in
    Returns (err, converter.mkOptions cols (converter.CsvInput o) w false
                    (converter.Logger o)).
Proof.
  intros HEOF Hget Hres Hskip Hfuel.
  destruct (getCsvReader_reader _ _ HEOF Hget) as (HF & HE & Hlen & _).
  destruct (resolved_fits _ _ _ _ HF HE Hres) as (Hfit & HE' & Hle & Hset).
  unfold converter.Instrument. rewrite Hget.
  assert (forall o', converter.ColNames o' = cols ->
            converter.SkipErrors o' = false ->
            converter.buildRecords fuel rd o'
            = Returns ((map (build_record cols) (rows_before_error (rows_of rd)), None),
                       converter.Logger o'))
    as Hbuild.
  { intros o' Hcols Hsk. unfold converter.buildRecords.
    rewrite buildRecords_loop_stop; [|done|by rewrite Hcols|lia|done].
    simpl. by rewrite Hcols. }
  destruct Hres as [Hne|row rd' Hov HR|row rd' Hov HR].
  - rewrite decide_False by (by destruct (converter.ColNames o)).
    rewrite Hbuild by done. simpl.
    destruct (json.Encode _ _) as [err w]. destruct o. simpl in *. by subst.
  - rewrite decide_True by (by rewrite Hov).
    unfold converter.parseColumnNames. rewrite HR. simpl. rewrite Hset.
    rewrite Hbuild by done. simpl.
    destruct (json.Encode _ _) as [err w].
    unfold converter.set_effects, converter.set_ColNames. simpl. by rewrite Hskip.
  - rewrite decide_True by (by rewrite Hov).
    unfold converter.parseColumnNames. rewrite HR.
    apply Read_spec in HR as (_ & _ & _ & _ & _ & Hnil).
    destruct (Hnil eq_refl) as [-> _]. simpl. simpl in Hset. rewrite Hset.
    rewrite Hbuild by done. simpl.
    destruct (json.Encode _ _) as [err w].
    unfold converter.set_effects, converter.set_ColNames. simpl. by rewrite Hskip.
Qed.

Lemma csv2Json_from_stop fuel reader override cols rd w stdlog :
  csv.FieldsPerRecord reader = 0%Z -> ends_in_EOF reader ->
  resolved override reader cols rd ->
  input_left reader < fuel ->
  csv2Json_from fuel reader override w false stdlog
  = match first_row_error (rows_of rd) with
    | Some e => Returns (Some e, w, stdlog)
    | None =>
        let '(err, w') :=
          json.Encode w (map (build_record cols) (rows_before_error (rows_of rd))) in
        Returns (err, w', stdlog)
    end.
Proof.
  intros HF HE Hres Hfuel.
  destruct (resolved_fits _ _ _ _ HF HE Hres) as (Hfit & HE' & Hle & Hset).
  unfold csv2Json_from.
  assert (csv2Json_rows fuel rd cols false stdlog 0 []
          = Returns (first_row_error (rows_of rd), 0,
                     map (build_record cols) (rows_before_error (rows_of rd)),
                     stdlog)) as Hrows.
  { rewrite csv2Json_rows_stop; [done|done|done|lia]. }
  destruct Hres as [Hne|row rd' Hov HR|row rd' Hov HR].
  - rewrite decide_False by (by destruct override).
    rewrite Hrows. simpl. destruct (first_row_error _); [done|].
    by destruct (json.Encode _ _) as [err w'].
  - rewrite decide_True by (by rewrite Hov). rewrite HR.
    rewrite Hrows. simpl. destruct (first_row_error _); [done|].
    by destruct (json.Encode _ _) as [err w'].
  - rewrite decide_True by (by rewrite Hov). rewrite HR. simpl. rewrite Hov.
    rewrite Hrows. simpl. destruct (first_row_error _); [done|].
    by destruct (json.Encode _ _) as [err w'].
Qed.

(** * Readers without a byte-order mark *)

Lemma getCsvReader_no_BOM rd :
  io.content rd <> [] \/ io.at_end rd = EOF ->
  (forall rest, io.content rd <> BOM ++ rest) ->
  converter.getCsvReader rd = inr (csv.NewReader (bufio.NewReader rd))
  /\ main.getCsvReader rd = Returns (csv.NewReader (bufio.NewReader rd)).
Proof.
  intros Hin Hno.
  unfold converter.getCsvReader, main.getCsvReader, bufio.ReadRune, bufio.NewReader.
  simpl. destruct (io.content rd) as [|c l] eqn:Hc.
  - destruct Hin as [|Hin]; [done|]. rewrite Hin. simpl. done.
  - set (p := c :: l) in *.
    destruct (utf8.DecodeRune p) as [rn size] eqn:Hd.
    destruct (decide (rn = 0xFEFF%Z)) as [->|Hne].
    + apply DecodeRune_FEFF in Hd as Hp. destruct Hp as [rest Hp]. by destruct (Hno rest).
    + rewrite decide_True by done.
      unfold bufio.UnreadRune. simpl.
      replace (Z.of_nat size <? 0)%Z with false by (symmetry; apply Z.ltb_ge; lia).
      simpl. by rewrite take_drop.
Qed.

(** What a header read that fails leaves behind. *)
Lemma header_error_returned fuel o reader row e rd stdlog :
  converter.ColNames o = [] ->
  converter.getCsvReader (converter.CsvInput o) = inr reader ->
  csv.Read reader = ((row, Some e), rd) ->
  e <> EOF ->
  converter.Instrument fuel o = Returns (Some e, o)
  /\ converter.csv2Json fuel o stdlog = Returns (Some e, converter.JsonOutput o, stdlog).
Proof.
  intros Hcols Hget HR Hne. split.
  - unfold converter.Instrument. rewrite Hget, Hcols. simpl.
    unfold converter.parseColumnNames. rewrite HR.
    by rewrite decide_False.
  - unfold converter.csv2Json, csv2Json_from. rewrite Hget, Hcols. simpl.
    rewrite HR. by rewrite decide_False.
Qed.

(** Every reader resolves its column names, or the header read fails. *)
Lemma resolved_or_header_error override reader :
  (exists cols rd, resolved override reader cols rd)
  \/ (override = [] /\ exists row e rd, csv.Read reader = ((row, Some e), rd) /\ e <> EOF).
Proof.
  destruct override as [|c override].
  - destruct (csv.Read reader) as [[row [e|]] rd] eqn:HR.
    + destruct (decide (e = EOF)) as [->|Hne].
      * left. exists [], rd. by eapply resolved_empty.
      * right. split; [done|]. by exists row, e, rd.
    + left. exists row, rd. by apply resolved_header.
  - left. eexists _, _. by apply resolved_override.
Qed.

(** * Input of white space *)

Lemma lines_split_after s line rest :
  bufio.split_after csv.LF s = Some (line, rest) ->
  exists l, line = l ++ [csv.LF] /\ s = l ++ csv.LF :: rest /\ lines s = l :: lines rest.
Proof.
  revert line rest. induction s as [|c s IH]; intros line rest; simpl; [done|].
  case_decide as Hc.
  - intros [= <- <-]. exists []. by subst.
  - destruct (bufio.split_after csv.LF s) as [[l0 rest0]|]; [|done].
    intros [= <- <-]. destruct (IH _ _ eq_refl) as (l & -> & -> & ->).
    by exists (c :: l).
Qed.

Lemma split_after_None_inv s : bufio.split_after csv.LF s = None -> csv.LF ∉ s.
Proof.
  induction s as [|c s IH]; simpl; [intros _; apply not_elem_of_nil|].
  case_decide as Hc; [done|].
  destruct (bufio.split_after csv.LF s) as [[l0 rest0]|]; [done|].
  intros _. apply not_elem_of_cons. split; [congruence|by apply IH].
Qed.

Lemma lines_no_LF s : csv.LF ∉ s -> lines s = [s].
Proof.
  induction s as [|c s IH]; [done|].
  intros [Hc Hs]%not_elem_of_cons. simpl.
  rewrite decide_False by congruence. by rewrite IH.
Qed.

Lemma dropCR_nil l : csv.dropCR l = [] <-> l = [] \/ l = [csv.CR].
Proof.
  unfold csv.dropCR. split.
  - case_decide as Hl; [|by left].
    destruct l as [|c [|c' l']]; [by left| |done].
    simpl in Hl. injection Hl as ->. by right.
  - intros [->| ->]; [done|]. by rewrite decide_True.
Qed.

Lemma dropCR_snoc l c :
  csv.dropCR (l ++ [c]) = if decide (c = csv.CR) then l else l ++ [c].
Proof.
  unfold csv.dropCR. rewrite last_snoc, length_app. simpl.
  replace (length l + 1 - 1) with (length l) by lia.
  rewrite take_app_length.
  destruct (decide (c = csv.CR)) as [->|Hc]; [by rewrite decide_True|].
  by rewrite decide_False by congruence.
Qed.

Lemma normalizeNL_line l : csv.normalizeNL (l ++ [csv.LF]) = csv.dropCR l ++ [csv.LF].
Proof.
  unfold csv.normalizeNL. rewrite reverse_app. simpl.
  destruct l as [|c l] using rev_ind; [done|].
  rewrite reverse_app. simpl. rewrite dropCR_snoc.
  destruct (decide (c = csv.CR)) as [->|Hc].
  - rewrite bool_decide_eq_true_2 by done.
    rewrite !length_app. simpl.
    replace (length l + 1 + 1 - 2) with (length l) by lia.
    by rewrite <- app_assoc, take_app_length.
  - by rewrite bool_decide_eq_false_2 by (by intros [? _]).
Qed.

Lemma lengthNL_line l : csv.lengthNL (l ++ [csv.LF]) = 1.
Proof. unfold csv.lengthNL. by rewrite last_snoc, decide_True. Qed.

Lemma spaces_dropCR l : Forall is_space l -> Forall is_space (csv.dropCR l).
Proof. unfold csv.dropCR. case_decide; [apply Forall_take|done]. Qed.

Lemma is_space_LF : is_space csv.LF.
Proof. unfold is_space. apply (bool_decide_unpack _). by vm_compute. Qed.

Lemma readLine_line rd line rest :
  bufio.split_after csv.LF (bufio.unread (csv.r rd)) = Some (line, rest) ->
  csv.readLine rd
  = ((csv.normalizeNL line, None),
     {| csv.r := {| bufio.unread := rest; bufio.rd_err := bufio.rd_err (csv.r rd);
                    bufio.lastRune := []; bufio.lastRuneSize := -1 |};
        csv.numLine := S (csv.numLine rd);
        csv.FieldsPerRecord := csv.FieldsPerRecord rd |}).
Proof.
  intros Hs. unfold csv.readLine, bufio.ReadSlice. rewrite Hs.
  by rewrite bool_decide_eq_false_2 by (by intros [_ ?]).
Qed.

(** The first loop of [readRecord] on white space: it stops at the first
    line that is not blank, or at the end of the input. *)
Lemma skipEmpty_whitespace fuel rd :
  ends_in_EOF rd -> Forall is_space (bufio.unread (csv.r rd)) -> input_left rd < fuel ->
  exists rd',
    ends_in_EOF rd' /\ csv.FieldsPerRecord rd' = csv.FieldsPerRecord rd
    /\ Forall is_space (bufio.unread (csv.r rd'))
    /\ match nonblank_lines (bufio.unread (csv.r rd)) with
       | [] =>
           csv.skipEmpty fuel rd = Some (([], Some EOF), rd')
           /\ bufio.unread (csv.r rd') = []
       | l :: ls =>
           exists line,
             csv.skipEmpty fuel rd = Some ((line, None), rd')
             /\ take (length line - csv.lengthNL line) line = csv.dropCR l
             /\ Forall is_space line /\ line <> []
             /\ nonblank_lines (bufio.unread (csv.r rd')) = ls
       end.
Proof.
  revert rd. induction fuel as [|fuel IH]; intros rd HE Hws Hfuel; [lia|].
  unfold input_left in Hfuel. simpl.
  destruct (bufio.split_after csv.LF (bufio.unread (csv.r rd))) as [[line rest]|] eqn:Hs.
  - rewrite (readLine_line _ _ _ Hs).
    apply lines_split_after in Hs as (l & -> & Hu & Hl).
    rewrite Hu in Hws, Hfuel. rewrite length_app in Hfuel. simpl in Hfuel.
    apply Forall_app in Hws as [Hwl Hwr]. apply Forall_cons in Hwr as [_ Hwr].
    rewrite normalizeNL_line, lengthNL_line, length_app. simpl.
    unfold nonblank_lines. rewrite Hl.
    destruct (decide (csv.dropCR l = [])) as [Hb|Hb].
    + rewrite Hb. simpl.
      rewrite filter_cons_False by (apply dropCR_nil in Hb; tauto).
      match goal with |- context [csv.skipEmpty fuel ?r] =>
        destruct (IH r) as (rd' & HE' & HF' & Hws' & Hres) end;
        [done|done|unfold input_left; simpl; lia|].
      exists rd'. split; [done|]. split; [done|]. split; [done|]. exact Hres.
    + rewrite bool_decide_eq_false_2
        by (intros [_ Hlen]; destruct (csv.dropCR l); [done|simpl in Hlen; lia]).
      rewrite filter_cons_True
        by (split; intros ->; apply Hb, dropCR_nil; [by left|by right]).
      match goal with |- context [Some (_, ?r)] => exists r end.
      split; [exact HE|]. split; [done|]. split; [exact Hwr|].
      eexists. split; [done|].
      rewrite lengthNL_line, length_app. simpl.
      replace (length (csv.dropCR l) + 1 - 1) with (length (csv.dropCR l)) by lia.
      rewrite take_app_length. split; [done|].
      split; [apply Forall_app; split;
                [by apply spaces_dropCR|apply Forall_singleton, is_space_LF]|].
      split; [by destruct (csv.dropCR l)|done].
  - apply split_after_None_inv in Hs as HLF.
    destruct (readLine_last_line rd HE HLF) as (rd1 & Hu1 & HE1 & HF1 & Hline).
    rewrite Hline. unfold nonblank_lines. rewrite (lines_no_LF _ HLF).
    destruct (bufio.unread (csv.r rd)) as [|c u] eqn:Hu.
    + rewrite bool_decide_eq_false_2 by (by intros [? _]).
      rewrite filter_cons_False by tauto.
      exists rd1. split; [done|]. split; [done|].
      split; [rewrite Hu1; constructor|done].
    + set (s := c :: u) in *.
      rewrite lengthNL_no_LF by (by apply dropCR_subseteq).
      destruct (decide (csv.dropCR s = [])) as [Hb|Hb].
      * rewrite Hb. rewrite bool_decide_eq_true_2 by done.
        rewrite filter_cons_False by (apply dropCR_nil in Hb; tauto).
        destruct (IH rd1) as (rd' & HE' & HF' & Hws' & Hres);
          [done|rewrite Hu1; constructor|unfold input_left; rewrite Hu1; simpl in *; lia|].
        exists rd'. split; [done|]. split; [congruence|]. split; [done|].
        unfold nonblank_lines in Hres. rewrite Hu1 in Hres. exact Hres.
      * rewrite bool_decide_eq_false_2
          by (intros [_ Hlen]; destruct (csv.dropCR s); [done|simpl in Hlen; lia]).
        rewrite filter_cons_True
        by (split; intros ->; apply Hb, dropCR_nil; [by left|by right]).
        exists rd1. split; [done|]. split; [done|].
        split; [rewrite Hu1; constructor|].
        eexists. split; [done|].
        rewrite lengthNL_no_LF by (by apply dropCR_subseteq).
        rewrite Nat.sub_0_r, firstn_all. split; [done|].
        split; [by apply spaces_dropCR|]. split; [done|]. by rewrite Hu1.
Qed.

Lemma spaces_no_Quote l : Forall is_space l -> csv.Quote ∉ l.
Proof. intros H. apply spaces_no_byte; [done|]. by intros (? & _)%is_space_cases. Qed.

Lemma spaces_no_Comma l : Forall is_space l -> csv.Comma ∉ l.
Proof. intros H. apply spaces_no_byte; [done|]. by intros (_ & ? & _)%is_space_cases. Qed.

(** One [Read] on white space: the first line that is not blank as a row
    of one field, or end of input. *)
Lemma Read_whitespace rd :
  ends_in_EOF rd -> Forall is_space (bufio.unread (csv.r rd)) ->
  csv.FieldsPerRecord rd = 0%Z \/ csv.FieldsPerRecord rd = 1%Z ->
  exists rd',
    ends_in_EOF rd' /\ Forall is_space (bufio.unread (csv.r rd'))
    /\ match nonblank_lines (bufio.unread (csv.r rd)) with
       | [] => csv.Read rd = (([], Some EOF), rd') /\ bufio.unread (csv.r rd') = []
       | l :: ls =>
           csv.Read rd = (([blank_field l], None), rd')
           /\ csv.FieldsPerRecord rd' = 1%Z
           /\ nonblank_lines (bufio.unread (csv.r rd')) = ls
       end.
Proof.
  intros HE Hws HF.
  pose proof (Read_readRecord rd) as H.
  unfold csv.readRecord, csv.fuel_for in H.
  replace (2 * length (bufio.unread (csv.r rd)) + 2)
    with (S (S (2 * length (bufio.unread (csv.r rd))))) in H by lia.
  destruct (skipEmpty_whitespace (S (S (2 * length (bufio.unread (csv.r rd))))) rd)
    as (rd1 & HE1 & HF1 & Hws1 & Hres); [done|done|unfold input_left; lia|].
  destruct (nonblank_lines (bufio.unread (csv.r rd))) as [|l ls].
  - destruct Hres as [Hs Hu]. rewrite Hs in H. simpl in H.
    injection H as <-. exists rd1. by repeat split.
  - destruct Hres as (line & Hs & Htake & Hwl & Hne & Hls).
    rewrite Hs in H. cbn [mbind option_bind] in H.
    case_decide as Hn; [discriminate Hn|].
    rewrite parseField_S in H. cbn [csv.line] in H.
    destruct line as [|c line']; [done|].
    set (ln := c :: line') in *.
    assert (c <> csv.Quote) as Hq.
    { intros ->. apply (spaces_no_Quote ln Hwl). left. }
    rewrite decide_False in H by done.
    cbn [csv.bareField csv.line] in H.
    rewrite (IndexByte_None _ csv.Comma) in H by (by apply spaces_no_Comma).
    rewrite Htake in H.
    assert (Forall is_space (csv.dropCR l)) as Hwf.
    { rewrite <- Htake. by apply Forall_take. }
    rewrite (IndexByte_None _ csv.Quote) in H by (by apply spaces_no_Quote).
    cbn in H. rewrite HF1 in H.
    destruct HF as [HF|HF]; rewrite HF in H; cbn in H.
    + injection H as <-. exists (csv.set_FieldsPerRecord 1 rd1). by repeat split.
    + rewrite ?bool_decide_eq_false_2 in H by (by intros [? _]).
      injection H as <-. exists rd1. repeat split; try done. congruence.
Qed.

(** C9, amended.  With no column override, an input of white space in
    which at most one line is not blank (a blank line is empty or a lone
    carriage return; the empty input has none) converts without error to
    the JSON array [[]].  The column names are then the one field of the
    line that is not blank, and none when every line is blank, where the
    header read meets the end of the input.  White space on two lines that
    are not blank is not covered: the second line is a data row. *)
Theorem blank_input_converts_to_empty_array (fuel : nat) (o : converter.Options) :
  converter.ColNames o = [] ->
  io.at_end (converter.CsvInput o) = EOF ->
  io.broken (converter.JsonOutput o) = None ->
  Forall is_space (io.content (converter.CsvInput o)) ->
  length (nonblank_lines (io.content (converter.CsvInput o))) <= 1 ->
  length (io.content (converter.CsvInput o)) < fuel ->
  converter.Instrument fuel o
  = Returns (None,
             converter.mkOptions
               (map blank_field (nonblank_lines (io.content (converter.CsvInput o))))
               (converter.CsvInput o)
               (io.mkWriter (io.written (converter.JsonOutput o) ++ dq "[]" ++ [csv.LF])
                  None)
               (converter.SkipErrors o) (converter.Logger o)).
Proof.
  intros Hcols HEOF Hw Hws Hone Hfuel.
  destruct (getCsvReader_spec (converter.CsvInput o)) as (br & Hget & _ & Hu & He);
    [by right|].
  rewrite spaces_no_BOM in Hu by done.
  set (reader := csv.NewReader br) in *.
  assert (ends_in_EOF reader) as HE by (unfold ends_in_EOF; simpl; congruence).
  destruct (Read_whitespace reader) as (rd & HE' & Hws' & Hres);
    [done|simpl; by rewrite Hu|by left|].
  simpl in Hres. rewrite Hu in Hres.
  assert (exists cols,
            cols = map blank_field (nonblank_lines (io.content (converter.CsvInput o)))
            /\ resolved [] reader cols rd /\ rows_of rd = [])
    as (cols & Hc & Hresolved & Hrows).
  { destruct (nonblank_lines (io.content (converter.CsvInput o))) as [|l [|l' ls]].
    - destruct Hres as [HR Hnil]. exists []. split; [done|].
      split; [by eapply resolved_empty|by apply rows_of_at_end].
    - destruct Hres as (HR & HF & Hls). exists [blank_field l]. split; [done|].
      split; [by apply resolved_header|].
      destruct (Read_whitespace rd) as (rd2 & _ & _ & Hres2); [done|done|by right|].
      rewrite Hls in Hres2. destruct Hres2 as [HR2 _].
      destruct (rows_of_Read rd [] (Some EOF) rd2 HE' HR2) as [_ ->].
      by rewrite decide_True.
    - simpl in Hone. lia. }
  rewrite <- Hc.
  rewrite (Instrument_spec fuel o reader cols rd);
    [|done|exact Hget|by rewrite Hcols|right; by rewrite Hrows|exact Hfuel].
  rewrite Hrows. cbn zeta. rewrite Encode_ok by done.
  unfold kit_diagnostics. simpl. by rewrite app_nil_r.
Qed.

Lemma blank_input_converts_to_empty_array_witness :
  converter.Instrument 100 (example_options [] blank_line_among_empty_lines false)
  = Returns (None,
             converter.mkOptions ["    "] (string_reader blank_line_among_empty_lines)
               (io.mkWriter ([] ++ dq "[]" ++ [csv.LF]) None) false []).
Proof.
  apply (blank_input_converts_to_empty_array 100
           (example_options [] blank_line_among_empty_lines false)).
  - reflexivity.
  - reflexivity.
  - reflexivity.
  - apply (bool_decide_unpack _). by vm_compute.
  - vm_compute. lia.
  - vm_compute. lia.
Defined.

(** The rows of white space: one row of one field for each line that is
    not blank. *)
Lemma rows_of_whitespace rd :
  ends_in_EOF rd -> Forall is_space (bufio.unread (csv.r rd)) ->
  csv.FieldsPerRecord rd = 1%Z ->
  rows_of rd
  = map (fun l => ([blank_field l], None)) (nonblank_lines (bufio.unread (csv.r rd))).
Proof.
  remember (nonblank_lines (bufio.unread (csv.r rd))) as nls eqn:Hn.
  revert rd Hn. induction nls as [|l ls IH]; intros rd Hn HE Hws HF.
  - destruct (Read_whitespace rd) as (rd' & _ & _ & Hres); [done|done|by right|].
    rewrite <- Hn in Hres. destruct Hres as [HR _].
    destruct (rows_of_Read rd [] (Some EOF) rd' HE HR) as [_ ->].
    by rewrite decide_True.
  - destruct (Read_whitespace rd) as (rd' & HE' & Hws' & Hres); [done|done|by right|].
    rewrite <- Hn in Hres. destruct Hres as (HR & HF' & Hls).
    destruct (rows_of_Read rd _ None rd' HE HR) as [_ ->].
    rewrite decide_False by done. simpl. f_equal. by apply IH.
Qed.

Lemma Marshal_not_empty_array r rs : json.Marshal (r :: rs) <> dq "[]".
Proof.
  unfold json.Marshal, json.marshal_map.
  destruct rs; cbn [map json.join app]; discriminate.
Qed.

(** With a second line that is not blank the output is not the empty
    array: the first such line is the header and each further one a data
    row. *)
Lemma blank_input_with_more_lines_converts_to_records (fuel : nat)
    (o : converter.Options) (l1 l2 : list ascii) (ls : list (list ascii)) :
  converter.ColNames o = [] ->
  io.at_end (converter.CsvInput o) = EOF ->
  io.broken (converter.JsonOutput o) = None ->
  Forall is_space (io.content (converter.CsvInput o)) ->
  nonblank_lines (io.content (converter.CsvInput o)) = l1 :: l2 :: ls ->
  length (io.content (converter.CsvInput o)) < fuel ->
  let records :=
    map (fun l => build_record [blank_field l1] [blank_field l]) (l2 :: ls) in
  converter.Instrument fuel o
  = Returns (None,
             converter.mkOptions [blank_field l1] (converter.CsvInput o)
               (io.mkWriter
                  (io.written (converter.JsonOutput o) ++ json.Marshal records ++ [csv.LF])
                  None)
               (converter.SkipErrors o) (converter.Logger o))
  /\ json.Marshal records <> dq "[]".
Proof.
  intros Hcols HEOF Hw Hws Hn Hfuel records.
  split; [|apply Marshal_not_empty_array].
  destruct (getCsvReader_spec (converter.CsvInput o)) as (br & Hget & _ & Hu & He);
    [by right|].
  rewrite spaces_no_BOM in Hu by done.
  set (reader := csv.NewReader br) in *.
  assert (ends_in_EOF reader) as HE by (unfold ends_in_EOF; simpl; congruence).
  destruct (Read_whitespace reader) as (rd & HE' & Hws' & Hres);
    [done|simpl; by rewrite Hu|by left|].
  simpl in Hres. rewrite Hu, Hn in Hres. destruct Hres as (HR & HF & Hls).
  pose proof (rows_of_whitespace rd HE' Hws' HF) as Hrows. rewrite Hls in Hrows.
  assert (row_errors (rows_of rd) = []
          /\ good_rows (rows_of rd) = map (fun l => [blank_field l]) (l2 :: ls))
    as [Herrs Hgood].
  { rewrite Hrows. clear. generalize (l2 :: ls). intros l.
    induction l as [|x l [IH1 IH2]]; [done|].
    cbn [map]. rewrite row_errors_cons, good_rows_cons. split; [done|by f_equal]. }
  rewrite (Instrument_spec fuel o reader [blank_field l1] rd);
    [|done|exact Hget|rewrite Hcols; by apply resolved_header|by right|exact Hfuel].
  rewrite Herrs, Hgood, map_map. cbn zeta. rewrite Encode_ok by done.
  unfold kit_diagnostics. simpl. by rewrite app_nil_r.
Qed.

(** White space on two lines that are not blank: a header and one data
    row. *)
Lemma blank_lines_convert_to_a_record :
  Forall is_space (bytes (" " +:+ nl +:+ " "))
  /\ (csv.Comma ∉ bytes (" " +:+ nl +:+ " "))
  /\ length (nonblank_lines (bytes (" " +:+ nl +:+ " "))) = 2
  /\ converter.Instrument 100 (example_options [] (" " +:+ nl +:+ " ") false)
     = Returns (None,
                converter.mkOptions [" "] (string_reader (" " +:+ nl +:+ " "))
                  (io.mkWriter (dq "[{' ':' '}]" ++ [csv.LF]) None) false [])
  /\ dq "[{' ':' '}]" ++ [csv.LF] <> dq "[]" ++ [csv.LF].
Proof.
  split; [apply (bool_decide_unpack _); by vm_compute|].
  split; [apply (bool_decide_unpack _); by vm_compute|].
  split; [by vm_compute|]. split; [by vm_compute|discriminate].
Qed.

(** * The column override *)

Lemma elem_of_good_rows row rows : (row, None) ∈ rows -> row ∈ good_rows rows.
Proof.
  intros Hin. unfold good_rows. apply list_elem_of_omap. by exists (row, None).
Qed.

(** C8.  With a non-empty column override the column names are the
    override, and the reader checks every row against their number: a row
    read without error has exactly that many fields, so a row with another
    number of fields comes with an error.  The rows are read from the start
    of the input, so that the first row gives the first record.  With
    [SkipErrors] the rows with an error are skipped and reported; without
    it [Instrument] stops at the first of them and encodes the records
    before it, and [csv2Json] of package main returns its error and writes
    nothing. *)
Theorem override_used_and_first_row_is_data (fuel : nat) (o : converter.Options)
    (reader : csv.Reader) (stdlog : list log_entry) :
  converter.ColNames o <> [] ->
  io.at_end (converter.CsvInput o) = EOF ->
  converter.getCsvReader (converter.CsvInput o) = inr reader ->
  length (io.content (converter.CsvInput o)) < fuel ->
  let cols := converter.ColNames o in
  let rd := csv.set_FieldsPerRecord (Z.of_nat (length cols)) reader in
  let rows := rows_of rd in
  let converted :=
    if converter.SkipErrors o then good_rows rows else rows_before_error rows in
  let records := map (build_record cols) converted in
  (forall row err, (row, err) ∈ rows -> err = None -> length row = length cols)
  /\ (forall row err, (row, err) ∈ rows -> length row <> length cols -> err <> None)
  /\ (forall row1 rd1, csv.Read rd = ((row1, None), rd1) ->
        head records = Some (build_record cols row1))
  /\ converter.Instrument fuel o
     = (let '(err, w) := json.Encode (converter.JsonOutput o) records in
        Returns (err, converter.mkOptions cols (converter.CsvInput o) w
                        (converter.SkipErrors o)
                        (converter.Logger o
                         ++ (if converter.SkipErrors o
                             then kit_diagnostics (row_errors rows) else []))))
  /\ main.csv2Json fuel
       (main.mkOptions cols (converter.CsvInput o) (converter.JsonOutput o)
          (converter.SkipErrors o)) stdlog
     = (if converter.SkipErrors o then
          let '(err, w) := json.Encode (converter.JsonOutput o) records in
          Returns (err, w, stdlog ++ printf_diagnostics (row_errors rows))
        else
          match first_row_error rows with
          | Some e => Returns (Some e, converter.JsonOutput o, stdlog)
          | None =>
              let '(err, w) := json.Encode (converter.JsonOutput o) records in
              Returns (err, w, stdlog)
          end).
Proof.
  intros Hcols HEOF Hget Hfuel cols rd rows converted records.
  destruct (getCsvReader_reader _ _ HEOF Hget) as (HF & HE & Hlen & _ & Hmain).
  assert (resolved cols reader cols rd) as Hres by (by apply resolved_override).
  assert (0 < length cols) as Hpos.
  { unfold cols. destruct (converter.ColNames o); [done|simpl; lia]. }
  assert (forall row err, (row, err) ∈ rows -> err = None -> length row = length cols)
    as Hcount.
  { intros row err Hin ->. apply elem_of_good_rows in Hin. apply Nat2Z.inj.
    by rewrite (read_all_row_length _ rd row) by (simpl; lia || done). }
  split; [done|]. split; [|split; [|split]].
  - intros row err Hin Hne ->. by apply Hne, (Hcount row None).
  - intros row1 rd1 HR. unfold records, converted, rows.
    destruct (rows_of_Read rd row1 None rd1) as [_ ->]; [done..|].
    rewrite decide_False by done. by destruct (converter.SkipErrors o).
  - unfold records, converted. destruct (converter.SkipErrors o) eqn:Hskip.
    + rewrite (Instrument_spec fuel o reader cols rd) by (done || by left).
      by rewrite Hskip.
    + rewrite (Instrument_stop fuel o reader cols rd) by done.
      simpl. destruct (json.Encode _ _) as [err w]. by rewrite app_nil_r.
  - unfold main.csv2Json, records, converted. simpl. rewrite Hmain. simpl.
    destruct (converter.SkipErrors o) eqn:Hskip.
    + by rewrite (csv2Json_from_spec fuel reader cols cols rd)
        by (done || lia || by left).
    + by rewrite (csv2Json_from_stop fuel reader cols cols rd) by (done || lia).
Qed.

Lemma override_used_and_first_row_is_data_witness :
  let out :=
    io.mkWriter (dq "[{'x':'a','y':'b','z':'c'},{'x':'1','y':'2','z':'3'}]" ++ [csv.LF])
      None in
  converter.Instrument 100 (example_options ["x"; "y"; "z"] two_lines false)
  = Returns (None, converter.mkOptions ["x"; "y"; "z"] (string_reader two_lines) out
                     false [])
  /\ main.csv2Json 100
       (main.mkOptions ["x"; "y"; "z"] (string_reader two_lines) new_buffer false) []
     = Returns (None, out, []).
Proof.
  destruct (override_used_and_first_row_is_data 100
              (example_options ["x"; "y"; "z"] two_lines false)
              (reader_of (string_reader two_lines)) [])
    as (_ & _ & _ & H1 & H2).
  - discriminate.
  - reflexivity.
  - by vm_compute.
  - vm_compute. lia.
  - vm_compute in H1, H2 |- *. split; [exact H1|exact H2].
Defined.

(** The row with two fields is not converted: without [SkipErrors]
    [Instrument] stops before it and [csv2Json] returns its error; with
    [SkipErrors] it is reported. *)
Lemma override_rejects_row_with_other_field_count :
  converter.Instrument 100 (example_options ["x"; "y"; "z"] short_second_line false)
  = Returns (None,
             converter.mkOptions ["x"; "y"; "z"] (string_reader short_second_line)
               (io.mkWriter (dq "[{'x':'a','y':'b','z':'c'}]" ++ [csv.LF]) None)
               false [])
  /\ main.csv2Json 100
       (main.mkOptions ["x"; "y"; "z"] (string_reader short_second_line) new_buffer false)
       []
     = Returns (Some (ParseError 2 2 1 ErrFieldCount), new_buffer, [])
  /\ converter.Instrument 100 (example_options ["x"; "y"; "z"] short_second_line true)
     = Returns (None,
                converter.mkOptions ["x"; "y"; "z"] (string_reader short_second_line)
                  (io.mkWriter (dq "[{'x':'a','y':'b','z':'c'}]" ++ [csv.LF]) None)
                  true
                  [KitError "Skipped parsing error" (ParseError 2 2 1 ErrFieldCount);
                   KitInfo "Skipped lines (rows) due to parsing errors" 1]).
Proof. split; [|split]; by vm_compute. Qed.

(** * Further properties of the code *)

(** * The record builder *)

Lemma build_record_take columns row :
  length columns <= length row ->
  build_record columns (take (length columns) row) = build_record columns row.
Proof.
  intros Hlen. rewrite !build_record_fold.
  apply foldl_ext_in. intros a i Hi%elem_of_seq.
  unfold set_field. by rewrite lookup_take_lt by lia.
Qed.

(** X1. [fieldsToRecord] reads only the first [len(colNames)] values of
    the row: cutting the row to that length changes neither the record
    nor, for a row that is too short, the panic. *)
Theorem fieldsToRecord_reads_first_values (columns row : list string) :
  fieldsToRecord columns (take (length columns) row) = fieldsToRecord columns row.
Proof.
  destruct (decide (length columns <= length row)) as [Hle|Hgt].
  - rewrite !fieldsToRecord_spec, length_take.
    rewrite !decide_True by lia. by rewrite build_record_take.
  - by rewrite take_ge by lia.
Qed.

Lemma fieldsToRecord_range_union colNames rowValues range (a r : gmap string string) :
  fieldsToRecord_range colNames rowValues range (a ∪ r)
  = (fun rec => rec ∪ r) <$> fieldsToRecord_range colNames rowValues range a.
Proof.
  revert a. induction range as [|i range IH]; intros a; simpl; [done|].
  unfold index.
  destruct (colNames !! i) as [k|]; simpl; [|done].
  destruct (rowValues !! i) as [v|]; simpl; [|done].
  by rewrite insert_union_l, IH.
Qed.

(** X2. The first generation's [fieldsToRecord], which stores into a
    record it is given, yields the record the returning variant builds
    laid over the given one: keys outside the column names stay, keys
    among them are overwritten, and it panics on the same rows. *)
Theorem fieldsToRecord_in_place_overlays (columns row : list string)
    (r : gmap string string) :
  main_first.fieldsToRecord columns row r
  = (fun rec => rec ∪ r) <$> fieldsToRecord columns row.
Proof.
  unfold main_first.fieldsToRecord, fieldsToRecord.
  by rewrite <- fieldsToRecord_range_union, (left_id_L ∅ (∪)).
Qed.

(** * Row errors without skipping *)



(** X4. Without [skipErrors], on an input that ends in EOF, [csv2Json]
    of package converter and of package main return the error of the
    first row that has one, write nothing and log nothing. *)
Theorem csv2Json_aborts_at_first_row_error (fuel : nat) (o : converter.Options)
    (reader : csv.Reader) (cols : list string) (rd : csv.Reader) (e : error)
    (stdlog : list log_entry) :
  converter.SkipErrors o = false ->
  io.at_end (converter.CsvInput o) = EOF ->
  converter.getCsvReader (converter.CsvInput o) = inr reader ->
  resolved (converter.ColNames o) reader cols rd ->
  first_row_error (rows_of rd) = Some e ->
  length (io.content (converter.CsvInput o)) < fuel ->
  converter.csv2Json fuel o stdlog = Returns (Some e, converter.JsonOutput o, stdlog)
  /\ main.csv2Json fuel
       (main.mkOptions (converter.ColNames o) (converter.CsvInput o)
          (converter.JsonOutput o) false) stdlog
     = Returns (Some e, converter.JsonOutput o, stdlog).
Proof.
  intros Hskip HEOF Hget Hres He Hfuel.
  destruct (getCsvReader_reader _ _ HEOF Hget) as (HF & HE & Hlen & _ & Hmain).
  unfold converter.csv2Json, main.csv2Json. simpl. rewrite Hget, Hmain, Hskip. simpl.
  rewrite (csv2Json_from_stop fuel reader _ cols rd); [|done|done|done|lia].
  by rewrite He.
Qed.

Lemma csv2Json_aborts_at_first_row_error_witness :
  converter.csv2Json 100 (example_options [] rows_with_bad_line false) []
  = Returns (Some (ParseError 3 3 1 ErrFieldCount), new_buffer, [])
  /\ main.csv2Json 100
       (main.mkOptions [] (string_reader rows_with_bad_line) new_buffer false) []
     = Returns (Some (ParseError 3 3 1 ErrFieldCount), new_buffer, []).
Proof.
  apply (csv2Json_aborts_at_first_row_error 100
           (example_options [] rows_with_bad_line false)
           (reader_of (string_reader rows_with_bad_line))
           (header_of (string_reader rows_with_bad_line))
           (after_header (string_reader rows_with_bad_line))
           (ParseError 3 3 1 ErrFieldCount) []).
  - reflexivity.
  - reflexivity.
  - by vm_compute.
  - apply resolved_header; [reflexivity|]. by vm_compute.
  - by vm_compute.
  - vm_compute. lia.
Defined.

(** * [Instrument] and [csv2Json] *)

(** X5. With [SkipErrors], on every input that ends in EOF, [Instrument]
    and [csv2Json] of package converter return the same error and leave
    the same bytes in the output. *)
Theorem Instrument_and_csv2Json_agree_when_skipping (fuel : nat) (o : converter.Options)
    (stdlog : list log_entry) :
  converter.SkipErrors o = true ->
  io.at_end (converter.CsvInput o) = EOF ->
  length (io.content (converter.CsvInput o)) < fuel ->
  Instrument_outcome <$> converter.Instrument fuel o
  = csv2Json_outcome <$> converter.csv2Json fuel o stdlog.
Proof.
  intros Hskip HEOF Hfuel.
  destruct (getCsvReader_spec (converter.CsvInput o)) as (br & Hget & _); [by right|].
  destruct (getCsvReader_reader _ _ HEOF Hget) as (HF & HE & Hlen & _).
  destruct (resolved_or_header_error (converter.ColNames o) (csv.NewReader br))
    as [(cols & rd & Hres)|(Hcols & row & e & rd & HR & Hne)].
  - rewrite (Instrument_spec fuel o _ cols rd) by (done || by left).
    unfold converter.csv2Json. rewrite Hget.
    rewrite (csv2Json_from_spec fuel _ _ cols rd); [|done|done|done|by left|lia].
    simpl. by destruct (json.Encode _ _) as [err w].
  - destruct (header_error_returned fuel o _ row e rd stdlog Hcols Hget HR Hne)
      as [-> ->].
    done.
Qed.

Lemma Instrument_and_csv2Json_agree_when_skipping_witness :
  Instrument_outcome <$> converter.Instrument 100 (example_options [] rows_with_bad_line true)
  = csv2Json_outcome <$> converter.csv2Json 100 (example_options [] rows_with_bad_line true) [].
Proof.
  apply (Instrument_and_csv2Json_agree_when_skipping 100
           (example_options [] rows_with_bad_line true) []).
  - reflexivity.
  - reflexivity.
  - vm_compute. lia.
Defined.

(** X6. Whenever the first read of the input does not fail, [csv2Json]
    of package main (0.2.0 and 0.3.0) and [csv2Json] of package converter
    give the same result on the same options. *)
Theorem main_csv2Json_is_converter_csv2Json (fuel : nat) (cols : list string)
    (input : io.Reader) (out : io.Writer) (skip : bool)
    (logger stdlog : list log_entry) :
  io.content input <> [] \/ io.at_end input = EOF ->
  main.csv2Json fuel (main.mkOptions cols input out skip) stdlog
  = converter.csv2Json fuel (converter.mkOptions cols input out skip logger) stdlog.
Proof.
  intros Hin. destruct (getCsvReader_spec input Hin) as (br & Hc & Hm & _).
  unfold main.csv2Json, converter.csv2Json. simpl. by rewrite Hc, Hm.
Qed.

Lemma main_csv2Json_is_converter_csv2Json_witness :
  main.csv2Json 100 (main.mkOptions [] (string_reader rows_with_bad_line) new_buffer true) []
  = converter.csv2Json 100
      (converter.mkOptions [] (string_reader rows_with_bad_line) new_buffer true []) [].
Proof.
  apply (main_csv2Json_is_converter_csv2Json 100 [] (string_reader rows_with_bad_line)
           new_buffer true [] []).
  right. reflexivity.
Defined.

(** * The generations of [csv2Json] *)

Lemma csv2Json_rows_v0_1 fuel reader colNames stdlog n allRecords :
  main_v0_1.csv2Json_rows fuel reader colNames allRecords
  = (fun r : option error * nat * list record * list log_entry => (r.1.1.1, r.1.2))
      <$> csv2Json_rows fuel reader colNames false stdlog n allRecords.
Proof.
  revert reader allRecords. induction fuel as [|fuel IH]; intros reader allRecords; [done|].
  simpl. destruct (csv.Read reader) as [[row [e|]] rd'].
  - by case_decide.
  - destruct (fieldsToRecord colNames row) as [rec| | |]; simpl; [|done..]. apply IH.
Qed.

Lemma csv2Json_rows_no_skip_log fuel reader colNames stdlog n allRecords r :
  csv2Json_rows fuel reader colNames false stdlog n allRecords = Returns r ->
  r.1.1.2 = n /\ r.2 = stdlog.
Proof.
  revert reader allRecords. induction fuel as [|fuel IH]; intros reader allRecords; [done|].
  simpl. destruct (csv.Read reader) as [[row [e|]] rd'].
  - case_decide; by intros [= <-].
  - destruct (fieldsToRecord colNames row) as [rec| | |]; simpl; [|done..]. apply IH.
Qed.

(** X7. On an input that does not start with a byte-order mark and whose
    first read does not fail, [csv2Json(colNames, input, out)] of version
    0.1.0 returns the error and leaves the output that [csv2Json] of
    version 0.3.0 does without [skipErrors], which in turn logs nothing. *)
Theorem csv2Json_v0_1_is_csv2Json_without_skip (fuel : nat) (cols : list string)
    (input : io.Reader) (out : io.Writer) (stdlog : list log_entry) :
  io.content input <> [] \/ io.at_end input = EOF ->
  (forall rest, io.content input <> BOM ++ rest) ->
  main_v0_1.csv2Json fuel cols input out
  = csv2Json_outcome <$> main.csv2Json fuel (main.mkOptions cols input out false) stdlog
  /\ (forall r, main.csv2Json fuel (main.mkOptions cols input out false) stdlog = Returns r ->
      r.2 = stdlog).
Proof.
  intros Hin Hno. destruct (getCsvReader_no_BOM input Hin Hno) as [_ Hm].
  unfold main.csv2Json, main_v0_1.csv2Json, csv2Json_from. simpl. rewrite Hm. simpl.
  set (header := if decide (length cols = 0) then _ else _).
  destruct header as [e|[colNames reader]]; [split; [done|by intros r [= <-]]|].
  rewrite (csv2Json_rows_v0_1 fuel reader colNames stdlog 0 []).
  destruct (csv2Json_rows fuel reader colNames false stdlog 0 [])
    as [[[[err n] recs] lg]| | |] eqn:Hrows; simpl; [|done..].
  apply csv2Json_rows_no_skip_log in Hrows as [_ Hlg]. simpl in Hlg. subst lg.
  destruct err as [e|]; [split; [done|by intros r [= <-]]|].
  destruct (json.Encode out recs) as [err w]. split; [done|by intros r [= <-]].
Qed.

Lemma csv2Json_v0_1_is_csv2Json_without_skip_witness :
  main_v0_1.csv2Json 100 [] (string_reader rows_with_bad_line) new_buffer
  = csv2Json_outcome
      <$> main.csv2Json 100
            (main.mkOptions [] (string_reader rows_with_bad_line) new_buffer false) []
  /\ (forall r,
        main.csv2Json 100
          (main.mkOptions [] (string_reader rows_with_bad_line) new_buffer false) []
        = Returns r -> r.2 = []).
Proof.
  apply (csv2Json_v0_1_is_csv2Json_without_skip 100 [] (string_reader rows_with_bad_line)
           new_buffer []).
  - right. reflexivity.
  - intros rest. discriminate.
Defined.

(** X8. On an input that does not start with a byte-order mark and whose
    first read does not fail, [Convert] and [Options.C] of package
    converterold give the result of [csv2Json] of package converter. *)
Theorem converterold_is_csv2Json_without_BOM (fuel : nat) (cols : list string)
    (input : io.Reader) (out : io.Writer) (skip : bool)
    (logger stdlog : list log_entry) :
  io.content input <> [] \/ io.at_end input = EOF ->
  (forall rest, io.content input <> BOM ++ rest) ->
  converterold.Convert fuel (converterold.mkOptions cols input out skip) stdlog
  = converter.csv2Json fuel (converter.mkOptions cols input out skip logger) stdlog
  /\ converterold.C fuel (converterold.mkOptions cols input out skip) stdlog
     = converter.csv2Json fuel (converter.mkOptions cols input out skip logger) stdlog.
Proof.
  intros Hin Hno. destruct (getCsvReader_no_BOM input Hin Hno) as [Hc _].
  unfold converterold.Convert, converterold.C, converter.csv2Json. simpl.
  by rewrite Hc.
Qed.

Lemma converterold_is_csv2Json_without_BOM_witness :
  converterold.Convert 100
    (converterold.mkOptions [] (string_reader rows_with_bad_line) new_buffer true) []
  = converter.csv2Json 100
      (converter.mkOptions [] (string_reader rows_with_bad_line) new_buffer true []) []
  /\ converterold.C 100
       (converterold.mkOptions [] (string_reader rows_with_bad_line) new_buffer true) []
     = converter.csv2Json 100
         (converter.mkOptions [] (string_reader rows_with_bad_line) new_buffer true []) [].
Proof.
  apply (converterold_is_csv2Json_without_BOM 100 [] (string_reader rows_with_bad_line)
           new_buffer true [] []).
  - right. reflexivity.
  - intros rest. discriminate.
Defined.

Lemma csv2Json_rows_first fuel reader colNames allRecords :
  main_first.csv2Json_rows fuel reader colNames allRecords
  = (r ← main_v0_1.csv2Json_rows fuel reader colNames allRecords;
     match r.1 with
     | Some e => Exits e
     | None => Returns r.2
     end).
Proof.
  revert reader allRecords. induction fuel as [|fuel IH]; intros reader allRecords; [done|].
  simpl. destruct (csv.Read reader) as [[row [e|]] rd'].
  - by case_decide.
  - assert (main_first.fieldsToRecord colNames row ∅ = fieldsToRecord colNames row) as ->
      by reflexivity.
    destruct (fieldsToRecord colNames row) as [rec| | |]; simpl; [|done..]. apply IH.
Qed.

(** X9. The first generation's [csv2Json(fd)] ends the process where
    version 0.1.0 returns an error and writes what 0.1.0 writes, with one
    exception: without column names, when the header read meets the end of
    the input, it returns without writing, where 0.1.0 goes on to write
    an empty array. *)
Theorem first_generation_exits_where_v0_1_returns_error (fuel : nat) (cols : list string)
    (fd : io.Reader) (stdout : io.Writer) :
  snd <$> main_first.csv2Json fuel cols fd stdout
  = if decide (cols = []
               /\ (csv.Read (csv.NewReader (bufio.NewReader fd))).1.2 = Some EOF)
    then Returns stdout
    else r ← main_v0_1.csv2Json fuel cols fd stdout;
         match r.1 with
         | Some e => Exits e
         | None => Returns r.2
         end.
Proof.
  unfold main_first.csv2Json, main_v0_1.csv2Json.
  destruct cols as [|c cols].
  - simpl. destruct (csv.Read _) as [[row [e|]] rd']; simpl.
    + destruct (decide (e = EOF)) as [->|Hne].
      * by rewrite decide_True.
      * rewrite decide_False by (intros [_ [=]]; done). done.
    + rewrite csv2Json_rows_first.
      destruct (main_v0_1.csv2Json_rows fuel rd' row []) as [[[e|] recs]| | |];
        simpl; [done| |done..].
      by destruct (json.Encode stdout recs) as [[e|] w].
  - simpl. rewrite csv2Json_rows_first.
    destruct (main_v0_1.csv2Json_rows _ _ _ _) as [[[e|] recs]| | |];
      simpl; [done| |done..].
    by destruct (json.Encode stdout recs) as [[e|] w].
Qed.

(** * The empty input *)

Lemma resolved_at_end override reader :
  ends_in_EOF reader -> bufio.unread (csv.r reader) = [] ->
  exists rd, resolved override reader override rd /\ rows_of rd = [].
Proof.
  intros HE Hu.
  destruct override as [|c override].
  - destruct (csv.Read reader) as [[row err] rd] eqn:HR.
    pose proof (Read_spec _ _ _ _ HR) as (HE' & Hle & Hprog & _).
    assert (input_left reader = 0) as H0 by (unfold input_left; by rewrite Hu).
    destruct (decide (err = Some EOF)) as [->|Hne].
    + exists rd. split; [by eapply resolved_empty|].
      apply rows_of_at_end; [unfold ends_in_EOF; congruence|].
      apply nil_length_inv. unfold input_left in *. lia.
    + specialize (Hprog HE Hne). lia.
  - eexists. split; [by apply resolved_override|].
    by apply rows_of_at_end.
Qed.

(** X10. An empty input that ends in EOF converts to an empty array
    whatever the column names given: [Instrument] and both [csv2Json]
    write the two brackets and a line feed, return no error and log
    nothing. *)
Theorem empty_input_gives_empty_array (fuel : nat) (o : converter.Options)
    (stdlog : list log_entry) :
  io.content (converter.CsvInput o) = [] ->
  io.at_end (converter.CsvInput o) = EOF ->
  io.broken (converter.JsonOutput o) = None ->
  0 < fuel ->
  let w := io.mkWriter (io.written (converter.JsonOutput o) ++ dq "[]" ++ [csv.LF]) None in
  converter.Instrument fuel o
  = Returns (None, converter.mkOptions (converter.ColNames o) (converter.CsvInput o) w
                     (converter.SkipErrors o) (converter.Logger o))
  /\ converter.csv2Json fuel o stdlog = Returns (None, w, stdlog)
  /\ main.csv2Json fuel
       (main.mkOptions (converter.ColNames o) (converter.CsvInput o)
          (converter.JsonOutput o) (converter.SkipErrors o)) stdlog
     = Returns (None, w, stdlog).
Proof.
  intros Hc HEOF Hw Hfuel w.
  destruct (getCsvReader_spec (converter.CsvInput o)) as (br & Hget & Hm & Hu & _);
    [by right|].
  destruct (getCsvReader_reader _ _ HEOF Hget) as (HF & HE & Hlen & _).
  rewrite Hc in Hu.
  destruct (resolved_at_end (converter.ColNames o) (csv.NewReader br) HE Hu)
    as (rd & Hres & Hrows).
  assert (converter.csv2Json fuel o stdlog = Returns (None, w, stdlog)) as Hcsv.
  { unfold converter.csv2Json. rewrite Hget.
    rewrite (csv2Json_from_spec fuel _ _ (converter.ColNames o) rd);
      [|done|done|done|right; by rewrite Hrows|].
    - rewrite Hrows. simpl. rewrite Encode_ok by done.
      destruct (converter.SkipErrors o); by rewrite app_nil_r.
    - unfold input_left. simpl. by rewrite Hu. }
  split; [|split; [done|]].
  - rewrite (Instrument_spec fuel o (csv.NewReader br) (converter.ColNames o) rd);
      [|done|done|done|right; by rewrite Hrows|rewrite Hc; simpl; lia].
    rewrite Hrows. simpl. rewrite Encode_ok by done. by rewrite app_nil_r.
  - rewrite <- Hcsv. unfold main.csv2Json, converter.csv2Json. simpl.
    by rewrite Hget, Hm.
Qed.

Lemma empty_input_gives_empty_array_witness :
  converter.Instrument 1 (example_options ["a"; "b"; "c"] "" false)
  = Returns (None,
             converter.mkOptions ["a"; "b"; "c"] (string_reader "")
               (io.mkWriter (dq "[]" ++ [csv.LF]) None) false [])
  /\ converter.csv2Json 1 (example_options ["a"; "b"; "c"] "" false) []
     = Returns (None, io.mkWriter (dq "[]" ++ [csv.LF]) None, [])
  /\ main.csv2Json 1 (main.mkOptions ["a"; "b"; "c"] (string_reader "") new_buffer false) []
     = Returns (None, io.mkWriter (dq "[]" ++ [csv.LF]) None, []).
Proof.
  apply (empty_input_gives_empty_array 1 (example_options ["a"; "b"; "c"] "" false) []).
  - reflexivity.
  - reflexivity.
  - reflexivity.
  - lia.
Defined.

(** * A failed first read *)

(** X11. When the first read of the input fails with an error other than
    EOF, package converter returns that error from [Instrument] and from
    [csv2Json] with the options, the output and the logs untouched, while
    [csv2Json] of package main ends the process with it. *)
Theorem first_read_failure_aborts (fuel : nat) (o : converter.Options) (e : error)
    (stdlog : list log_entry) :
  io.content (converter.CsvInput o) = [] ->
  io.at_end (converter.CsvInput o) = e ->
  e <> EOF ->
  converter.Instrument fuel o = Returns (Some e, o)
  /\ converter.csv2Json fuel o stdlog = Returns (Some e, converter.JsonOutput o, stdlog)
  /\ main.csv2Json fuel
       (main.mkOptions (converter.ColNames o) (converter.CsvInput o)
          (converter.JsonOutput o) (converter.SkipErrors o)) stdlog
     = Exits e.
Proof.
  intros Hc He Hne.
  destruct (getCsvReader_read_error _ _ Hc He Hne) as [Hget Hm].
  unfold converter.Instrument, converter.csv2Json, main.csv2Json. simpl.
  by rewrite Hget, Hm.
Qed.

Lemma first_read_failure_aborts_witness :
  converter.Instrument 100
    (converter.mkOptions ["a"] (io.mkReader [] (ErrOther "read failed")) new_buffer true [])
  = Returns (Some (ErrOther "read failed"),
             converter.mkOptions ["a"] (io.mkReader [] (ErrOther "read failed"))
               new_buffer true [])
  /\ converter.csv2Json 100
       (converter.mkOptions ["a"] (io.mkReader [] (ErrOther "read failed")) new_buffer true [])
       []
     = Returns (Some (ErrOther "read failed"), new_buffer, [])
  /\ main.csv2Json 100
       (main.mkOptions ["a"] (io.mkReader [] (ErrOther "read failed")) new_buffer true) []
     = Exits (ErrOther "read failed").
Proof.
  apply (first_read_failure_aborts 100
           (converter.mkOptions ["a"] (io.mkReader [] (ErrOther "read failed"))
              new_buffer true [])
           (ErrOther "read failed") []).
  - reflexivity.
  - reflexivity.
  - discriminate.
Defined.

(** * A failing output *)

(** X12. When the output refuses the write, on an input that ends in EOF
    and with [SkipErrors], [Instrument] and [csv2Json] return the
    output's error and write nothing, and the diagnostics of the skipped
    rows are logged all the same. *)
Theorem encode_failure_is_returned (fuel : nat) (o : converter.Options)
    (reader : csv.Reader) (cols : list string) (rd : csv.Reader) (e : error)
    (stdlog : list log_entry) :
  io.broken (converter.JsonOutput o) = Some e ->
  converter.SkipErrors o = true ->
  io.at_end (converter.CsvInput o) = EOF ->
  converter.getCsvReader (converter.CsvInput o) = inr reader ->
  resolved (converter.ColNames o) reader cols rd ->
  length (io.content (converter.CsvInput o)) < fuel ->
  converter.Instrument fuel o
  = Returns (Some e,
             converter.mkOptions cols (converter.CsvInput o) (converter.JsonOutput o) true
               (converter.Logger o ++ kit_diagnostics (row_errors (rows_of rd))))
  /\ converter.csv2Json fuel o stdlog
     = Returns (Some e, converter.JsonOutput o,
                stdlog ++ printf_diagnostics (row_errors (rows_of rd))).
Proof.
  intros Hw Hskip HEOF Hget Hres Hfuel.
  destruct (getCsvReader_reader _ _ HEOF Hget) as (HF & HE & Hlen & _).
  split.
  - rewrite (Instrument_spec fuel o reader cols rd) by (done || by left).
    simpl. unfold json.Encode, io.Write. by rewrite Hw, Hskip.
  - unfold converter.csv2Json. rewrite Hget.
    rewrite (csv2Json_from_spec fuel reader _ cols rd); [|done|done|done|by left|lia].
    simpl. unfold json.Encode, io.Write. by rewrite Hw, Hskip.
Qed.

Lemma encode_failure_is_returned_witness :
  converter.Instrument 100
    (converter.mkOptions [] (string_reader rows_with_bad_line) closed_pipe true [])
  = Returns (Some (ErrOther "closed pipe"),
             converter.mkOptions ["a"; "b"; "c"] (string_reader rows_with_bad_line)
               closed_pipe true
               [KitError "Skipped parsing error" (ParseError 3 3 1 ErrFieldCount);
                KitInfo "Skipped lines (rows) due to parsing errors" 1])
  /\ converter.csv2Json 100
       (converter.mkOptions [] (string_reader rows_with_bad_line) closed_pipe true []) []
     = Returns (Some (ErrOther "closed pipe"), closed_pipe,
                [PrintfError (ParseError 3 3 1 ErrFieldCount); PrintfSkipped 1]).
Proof.
  destruct (encode_failure_is_returned 100
              (converter.mkOptions [] (string_reader rows_with_bad_line) closed_pipe true [])
              (reader_of (string_reader rows_with_bad_line))
              (header_of (string_reader rows_with_bad_line))
              (after_header (string_reader rows_with_bad_line))
              (ErrOther "closed pipe") [])
    as (H1 & H2).
  - reflexivity.
  - reflexivity.
  - reflexivity.
  - by vm_compute.
  - apply resolved_header; [reflexivity|]. by vm_compute.
  - vm_compute. lia.
  - vm_compute in H1, H2 |- *. split; [exact H1|exact H2].
Defined.

(** * The keys of the records *)

Lemma good_rows_fit cols rd row :
  fits cols rd -> row ∈ good_rows (rows_of rd) -> length cols <= length row.
Proof.
  intros [->|HF] Hin; [simpl; lia|].
  destruct cols as [|c cols]; [simpl; lia|].
  apply read_all_row_length in Hin; [lia|]. rewrite HF. simpl. lia.
Qed.

Lemma rows_before_error_good row rows :
  row ∈ rows_before_error rows -> row ∈ good_rows rows.
Proof.
  induction rows as [|[r [e|]] rows IH].
  - done.
  - rewrite rows_before_error_cons. by intros ?%elem_of_nil.
  - rewrite rows_before_error_cons, good_rows_cons.
    intros [->|Hin]%elem_of_cons; [left|right; by apply IH].
Qed.

(** X13. Every record that [buildRecords] returns has exactly the column
    names as its keys, as many as there are distinct names: so for a
    reader that checks rows against the number of column names, as
    [Instrument] sets it up, over an input that ends in EOF, with and
    without [SkipErrors]; [buildRecords] does return, with one record
    for each row it converts. *)
Theorem records_have_the_column_names_as_keys (fuel : nat) (reader : csv.Reader)
    (o : converter.Options) :
  ends_in_EOF reader ->
  csv.FieldsPerRecord reader = Z.of_nat (length (converter.ColNames o)) ->
  input_left reader < fuel ->
  let converted :=
    if converter.SkipErrors o then good_rows (rows_of reader)
    else rows_before_error (rows_of reader) in
  exists records logger,
    converter.buildRecords fuel reader o = Returns ((records, None), logger)
    /\ length records = length converted
    /\ Forall (fun rec : gmap string string =>
                 dom rec = list_to_set (converter.ColNames o)
                 /\ size rec = length (remove_dups (converter.ColNames o)))
              records.
Proof.
  intros HE HF Hfuel converted. unfold converted.
  assert (fits (converter.ColNames o) reader) as Hfit by (by right).
  assert (forall rows : list (list string),
            (forall row, row ∈ rows -> row ∈ good_rows (rows_of reader)) ->
            Forall (fun rec : gmap string string =>
                      dom rec = list_to_set (converter.ColNames o)
                      /\ size rec = length (remove_dups (converter.ColNames o)))
                   (map (build_record (converter.ColNames o)) rows)) as Hkeys.
  { intros rows Hrows. apply Forall_map, Forall_forall. intros row Hin. simpl.
    pose proof (good_rows_fit _ _ _ Hfit (Hrows row Hin)).
    split; [by apply build_record_dom|by apply build_record_size]. }
  unfold converter.buildRecords.
  destruct (converter.SkipErrors o) eqn:Hskip.
  - rewrite buildRecords_loop_spec by (done || by left).
    simpl. eexists _, _. split; [done|]. split; [by rewrite length_map|].
    by apply Hkeys.
  - rewrite buildRecords_loop_stop by done.
    simpl. eexists _, _. split; [done|]. split; [by rewrite length_map|].
    apply Hkeys. intros row. apply rows_before_error_good.
Qed.

Lemma records_have_the_column_names_as_keys_witness :
  exists records logger,
    converter.buildRecords 100 (after_header (string_reader repeated_header))
      (converter.mkOptions ["a"; "b"; "a"] (string_reader repeated_header) new_buffer
         false [])
    = Returns ((records, None), logger)
    /\ length records = 1
    /\ Forall (fun rec : gmap string string =>
                 dom rec = list_to_set ["a"; "b"; "a"] /\ size rec = 2)
              records.
Proof.
  apply (records_have_the_column_names_as_keys 100
           (after_header (string_reader repeated_header))
           (converter.mkOptions ["a"; "b"; "a"] (string_reader repeated_header) new_buffer
              false [])).
  - reflexivity.
  - by vm_compute.
  - vm_compute. lia.
Defined.

(** * The command line of package main *)

(** X14. A named file that cannot be opened: in every generation of
    package main and in package cmd the error of [os.Open] ends the
    process before anything is read or written; [runCli] and [RunE]
    return it with the output and the log untouched. *)
Theorem unopened_file_ends_the_process (fuel : nat) (env : os.Env) (cols : list string)
    (name : string) (skip : bool) (stdout : io.Writer) (stdlog : list log_entry)
    (logLevel : Z) (logger : list log_entry) (e : error) :
  name <> "" ->
  os.Open env name = inl e ->
  main_cli.runCli fuel env cols name skip stdout stdlog = Returns (Some e, stdout, stdlog)
  /\ main_cli.main fuel env cols name skip stdout stdlog = Exits e
  /\ main_v0_1.main fuel env cols name stdout = Exits e
  /\ main_first.main fuel env cols name stdout = Exits e
  /\ cmd.RunE fuel env [name]
       (converter.mkOptions cols (os.Stdin env) stdout skip logger)
     = Returns (Some e, stdout, logger)
  /\ cmd.Execute fuel env logLevel [name]
       (converter.mkOptions cols (os.Stdin env) stdout skip logger)
     = Exits e.
Proof.
  intros Hname Hopen.
  unfold main_cli.main, main_cli.runCli, main_cli.getCsvFile,
    main_v0_1.main, main_v0_1.getCsvFile, main_first.main, main_first.getCsvFile,
    cmd.Execute, cmd.RunE.
  rewrite !decide_False by done. by rewrite Hopen.
Qed.

Lemma unopened_file_ends_the_process_witness :
  main_cli.runCli 100 (no_files "") [] "missing.csv" false new_buffer []
  = Returns (Some (ErrOther "file does not exist"), new_buffer, [])
  /\ main_cli.main 100 (no_files "") [] "missing.csv" false new_buffer []
     = Exits (ErrOther "file does not exist")
  /\ main_v0_1.main 100 (no_files "") [] "missing.csv" new_buffer
     = Exits (ErrOther "file does not exist")
  /\ main_first.main 100 (no_files "") [] "missing.csv" new_buffer
     = Exits (ErrOther "file does not exist")
  /\ cmd.RunE 100 (no_files "") ["missing.csv"]
       (converter.mkOptions [] (string_reader "") new_buffer false [])
     = Returns (Some (ErrOther "file does not exist"), new_buffer, [])
  /\ cmd.Execute 100 (no_files "") 0 ["missing.csv"]
       (converter.mkOptions [] (string_reader "") new_buffer false [])
     = Exits (ErrOther "file does not exist").
Proof.
  apply (unopened_file_ends_the_process 100 (no_files "") [] "missing.csv" false
           new_buffer [] 0 [] (ErrOther "file does not exist")).
  - discriminate.
  - reflexivity.
Defined.

(** X15. Without [skipErrors], [main] of versions 0.2.0 and 0.3.0 ends
    the process with the error of the first row that has one, whether the
    input is a named file or standard input. *)
Theorem main_exits_on_first_row_error (fuel : nat) (env : os.Env) (cols : list string)
    (name : string) (stdout : io.Writer) (stdlog : list log_entry)
    (fd : io.Reader) (reader : csv.Reader) (cols' : list string) (rd : csv.Reader)
    (e : error) :
  main_cli.getCsvFile env name = inr fd ->
  io.at_end fd = EOF ->
  converter.getCsvReader fd = inr reader ->
  resolved cols reader cols' rd ->
  first_row_error (rows_of rd) = Some e ->
  length (io.content fd) < fuel ->
  main_cli.runCli fuel env cols name false stdout stdlog = Returns (Some e, stdout, stdlog)
  /\ main_cli.main fuel env cols name false stdout stdlog = Exits e.
Proof.
  intros Hfile HEOF Hget Hres He Hfuel.
  destruct (getCsvReader_reader _ _ HEOF Hget) as (HF & HE & Hlen & _ & Hmain).
  assert (main_cli.runCli fuel env cols name false stdout stdlog
          = Returns (Some e, stdout, stdlog)) as Hrun.
  { unfold main_cli.runCli. rewrite Hfile. unfold main.csv2Json. simpl.
    rewrite Hmain. simpl.
    rewrite (csv2Json_from_stop fuel reader _ cols' rd); [|done|done|done|lia].
    by rewrite He. }
  split; [done|]. unfold main_cli.main. by rewrite Hrun.
Qed.

Lemma main_exits_on_first_row_error_witness :
  main_cli.runCli 100 (no_files rows_with_bad_line) [] "" false new_buffer []
  = Returns (Some (ParseError 3 3 1 ErrFieldCount), new_buffer, [])
  /\ main_cli.main 100 (no_files rows_with_bad_line) [] "" false new_buffer []
     = Exits (ParseError 3 3 1 ErrFieldCount).
Proof.
  apply (main_exits_on_first_row_error 100 (no_files rows_with_bad_line) [] ""
           new_buffer [] (string_reader rows_with_bad_line)
           (reader_of (string_reader rows_with_bad_line))
           (header_of (string_reader rows_with_bad_line))
           (after_header (string_reader rows_with_bad_line))
           (ParseError 3 3 1 ErrFieldCount)).
  - reflexivity.
  - reflexivity.
  - by vm_compute.
  - apply resolved_header; [reflexivity|]. by vm_compute.
  - by vm_compute.
  - vm_compute. lia.
Defined.



(** * Package cmd *)









(** * A leading byte-order mark *)

Lemma readLine_same rd1 rd2 : same_input rd1 rd2 -> csv.readLine rd1 = csv.readLine rd2.
Proof.
  intros (Hu & He & Hn & Hf). unfold csv.readLine, bufio.ReadSlice.
  by rewrite Hu, He, Hn, Hf.
Qed.

Lemma Read_same rd1 rd2 : same_input rd1 rd2 -> csv.Read rd1 = csv.Read rd2.
Proof.
  intros Hs. pose proof (readLine_same _ _ Hs) as Hl. destruct Hs as (Hu & _).
  assert (Some (csv.Read rd1) = Some (csv.Read rd2)) as [= ->]; [|done].
  rewrite <- !Read_readRecord. unfold csv.fuel_for. rewrite Hu.
  unfold csv.readRecord.
  assert (forall f, csv.skipEmpty f rd1 = csv.skipEmpty f rd2) as ->; [|done].
  intros [|f]; [done|]. simpl. by rewrite Hl.
Qed.

Lemma same_input_set_FieldsPerRecord n rd1 rd2 :
  same_input rd1 rd2 ->
  same_input (csv.set_FieldsPerRecord n rd1) (csv.set_FieldsPerRecord n rd2).
Proof. by intros (Hu & He & Hn & Hf). Qed.

Lemma buildRecords_loop_options fuel rd o1 o2 logger skipped records :
  converter.ColNames o1 = converter.ColNames o2 ->
  converter.SkipErrors o1 = converter.SkipErrors o2 ->
  converter.buildRecords_loop fuel rd o1 logger skipped records
  = converter.buildRecords_loop fuel rd o2 logger skipped records.
Proof.
  intros Hc Hk. revert rd logger skipped records.
  induction fuel as [|fuel IH]; intros rd logger skipped records; [done|].
  simpl. destruct (csv.Read rd) as [[row [e|]] rd'].
  - case_decide; [done|]. rewrite Hk. destruct (converter.SkipErrors o2); [apply IH|done].
  - rewrite Hc. destruct (fieldsToRecord _ row) as [rec| | |]; simpl; [apply IH|done..].
Qed.

Lemma buildRecords_same fuel rd1 rd2 o1 o2 :
  same_input rd1 rd2 ->
  converter.ColNames o1 = converter.ColNames o2 ->
  converter.SkipErrors o1 = converter.SkipErrors o2 ->
  converter.Logger o1 = converter.Logger o2 ->
  converter.buildRecords fuel rd1 o1 = converter.buildRecords fuel rd2 o2.
Proof.
  intros Hs Hc Hk Hl. unfold converter.buildRecords.
  rewrite (buildRecords_loop_options fuel rd1 o1 o2), Hl by done.
  destruct fuel as [|fuel]; [done|]. simpl. by rewrite (Read_same _ _ Hs).
Qed.

Lemma csv2Json_from_same fuel rd1 rd2 cols w skip stdlog :
  same_input rd1 rd2 ->
  csv2Json_from fuel rd1 cols w skip stdlog = csv2Json_from fuel rd2 cols w skip stdlog.
Proof.
  intros Hs. unfold csv2Json_from. case_decide.
  - by rewrite (Read_same _ _ Hs).
  - destruct fuel as [|fuel]; [done|]. simpl.
    by rewrite (Read_same _ _ (same_input_set_FieldsPerRecord _ _ _ Hs)).
Qed.

(** X19. A byte-order mark at the start of the input makes no
    difference: [Instrument] and [csv2Json] of package converter return
    the same error, write the same bytes, log the same entries and find
    the same column names with the mark as without it. *)
Theorem leading_BOM_makes_no_difference (fuel : nat) (cols : list string)
    (rest : list ascii) (at_end : error) (out : io.Writer) (skip : bool)
    (logger stdlog : list log_entry) :
  rest <> [] \/ at_end = EOF ->
  (forall rest', rest <> BOM ++ rest') ->
  Instrument_effects
    <$> converter.Instrument fuel
          (converter.mkOptions cols (io.mkReader (BOM ++ rest) at_end) out skip logger)
  = Instrument_effects
      <$> converter.Instrument fuel
            (converter.mkOptions cols (io.mkReader rest at_end) out skip logger)
  /\ converter.csv2Json fuel
       (converter.mkOptions cols (io.mkReader (BOM ++ rest) at_end) out skip logger) stdlog
     = converter.csv2Json fuel
         (converter.mkOptions cols (io.mkReader rest at_end) out skip logger) stdlog.
Proof.
  intros Hin Hno.
  destruct (getCsvReader_spec (io.mkReader (BOM ++ rest) at_end))
    as (br1 & Hget1 & _ & Hu1 & He1); [by left|].
  destruct (getCsvReader_spec (io.mkReader rest at_end))
    as (br2 & Hget2 & _ & Hu2 & He2); [done|].
  assert (bufio.unread br1 = rest) as Hr1 by (rewrite Hu1; apply strip_bom_BOM).
  assert (bufio.unread br2 = rest) as Hr2 by (rewrite Hu2; by apply strip_bom_other).
  assert (same_input (csv.NewReader br1) (csv.NewReader br2)) as Hs.
  { repeat split; simpl in *; congruence. }
  assert (forall rd1 rd2 o1 o2,
            same_input rd1 rd2 ->
            converter.ColNames o1 = converter.ColNames o2 ->
            converter.SkipErrors o1 = converter.SkipErrors o2 ->
            converter.Logger o1 = converter.Logger o2 ->
            converter.JsonOutput o1 = converter.JsonOutput o2 ->
            Instrument_effects
              <$> ('((records, err), logger) ← converter.buildRecords fuel rd1 o1;
                   let o := converter.set_effects (converter.JsonOutput o1) logger o1 in
                   match err with
                   | Some e => Returns (Some e, o)
                   | None =>
                       let '(err, w) := json.Encode (converter.JsonOutput o) records in
                       Returns (err, converter.set_effects w logger o)
                   end)
            = Instrument_effects
                <$> ('((records, err), logger) ← converter.buildRecords fuel rd2 o2;
                     let o := converter.set_effects (converter.JsonOutput o2) logger o2 in
                     match err with
                     | Some e => Returns (Some e, o)
                     | None =>
                         let '(err, w) := json.Encode (converter.JsonOutput o) records in
                         Returns (err, converter.set_effects w logger o)
                     end)) as Hrest.
  { intros rd1 rd2 o1 o2 Hsame Hc Hk Hl Hj.
    rewrite (buildRecords_same fuel rd1 rd2 o1 o2) by done.
    destruct (converter.buildRecords fuel rd2 o2) as [[[records [e|]] lg]| | |];
      simpl; [| |done..].
    - unfold Instrument_effects. simpl. by rewrite Hc, Hj.
    - rewrite Hj. destruct (json.Encode _ records) as [err w].
      unfold Instrument_effects. simpl. by rewrite Hc. }
  split.
  - unfold converter.Instrument.
    cbn [converter.CsvInput converter.ColNames converter.JsonOutput].
    rewrite Hget1, Hget2.
    case_decide.
    + unfold converter.parseColumnNames. rewrite (Read_same _ _ Hs).
      destruct (csv.Read (csv.NewReader br2)) as [[row [e|]] rd].
      * case_decide; [|done].
        by apply Hrest; [apply same_input_set_FieldsPerRecord|..].
      * by apply Hrest; [apply same_input_set_FieldsPerRecord|..].
    + by apply Hrest; [apply same_input_set_FieldsPerRecord|..].
  - unfold converter.csv2Json.
    cbn [converter.CsvInput converter.ColNames converter.JsonOutput converter.SkipErrors].
    rewrite Hget1, Hget2.
    by apply csv2Json_from_same.
Qed.

Lemma leading_BOM_makes_no_difference_witness :
  Instrument_effects
    <$> converter.Instrument 100
          (converter.mkOptions []
             (io.mkReader (BOM ++ bytes rows_with_bad_line) EOF) new_buffer true [])
  = Instrument_effects
      <$> converter.Instrument 100
            (converter.mkOptions [] (io.mkReader (bytes rows_with_bad_line) EOF)
               new_buffer true [])
  /\ converter.csv2Json 100
       (converter.mkOptions []
          (io.mkReader (BOM ++ bytes rows_with_bad_line) EOF) new_buffer true []) []
     = converter.csv2Json 100
         (converter.mkOptions [] (io.mkReader (bytes rows_with_bad_line) EOF)
            new_buffer true []) [].
Proof.
  apply (leading_BOM_makes_no_difference 100 [] (bytes rows_with_bad_line) EOF
           new_buffer true [] []).
  - right. reflexivity.
  - intros rest'. discriminate.
Defined.

(** * A source that fails while rows are skipped *)

Lemma readLine_EOF rd l rd' :
  csv.readLine rd = ((l, Some EOF), rd') -> bufio.rd_err (csv.r rd) = EOF.
Proof.
  unfold csv.readLine, bufio.ReadSlice.
  destruct (bufio.split_after csv.LF (bufio.unread (csv.r rd))) as [[l0 rest]|].
  - rewrite bool_decide_eq_false_2 by (intros [_ ?]; done). by intros [= _ ? _].
  - case_bool_decide; [by intros [= _ ? _]|]. intros [= _ ? _]. congruence.
Qed.

Lemma skipEmpty_EOF fuel rd l rd' :
  csv.skipEmpty fuel rd = Some ((l, Some EOF), rd') -> bufio.rd_err (csv.r rd) = EOF.
Proof.
  revert rd. induction fuel as [|fuel IH]; intros rd; simpl; [done|].
  destruct (csv.readLine rd) as [[l1 e1] rd1] eqn:Hr.
  case_bool_decide.
  - intros H1%IH. apply readLine_spec in Hr as ((_ & He & _) & _). congruence.
  - intros [= -> -> ->]. by eapply readLine_EOF.
Qed.

(** [Read] reports EOF only at the end of a source that ends in EOF. *)
Lemma Read_EOF rd row rd' :
  csv.Read rd = ((row, Some EOF), rd') -> bufio.rd_err (csv.r rd) = EOF.
Proof.
  intros HR. pose proof (Read_readRecord rd) as H. rewrite HR in H. clear HR.
  unfold csv.readRecord, csv.fuel_for in H. fold (input_left rd) in H.
  destruct (skipEmpty_fuel (2 * input_left rd + 2) rd)
    as (l & e & rd1 & Hs & _ & Hlen & _); [lia|].
  rewrite Hs in H. simpl in H.
  case_decide as HEOF.
  { subst e. by eapply skipEmpty_EOF. }
  match type of H with context [csv.parseField ?f ?n ?s] =>
    destruct (proj1 (parse_fuel f n) s)
      as (st' & perr & Hp & _ & Hkeep & Hperr) end.
  { unfold to_parse. simpl. lia. }
  rewrite Hp in H. simpl in H, Hkeep. specialize (Hkeep HEOF).
  assert (match perr with Some _ => perr | None => csv.errRead st' end <> Some EOF) as Hne.
  { by destruct perr. }
  destruct (0 <? csv.FieldsPerRecord (csv.rdr st'))%Z.
  - case_bool_decide; injection H as _ H _; [done|]. by rewrite H in Hne.
  - destruct (csv.FieldsPerRecord (csv.rdr st') =? 0)%Z;
      injection H as _ H _; by rewrite H in Hne.
Qed.

Lemma row_loops_never_end fuel reader o logger stdlog skipped records :
  converter.SkipErrors o = true ->
  bufio.rd_err (csv.r reader) <> EOF ->
  fits (converter.ColNames o) reader ->
  converter.buildRecords_loop fuel reader o logger skipped records = Timeout
  /\ csv2Json_rows fuel reader (converter.ColNames o) true stdlog skipped records = Timeout.
Proof.
  intros Hskip. revert reader logger stdlog skipped records.
  induction fuel as [|fuel IH]; intros reader logger stdlog skipped records He Hfit; [done|].
  simpl. destruct (csv.Read reader) as [[row err] rd'] eqn:HR.
  destruct (fits_Read _ _ _ _ _ Hfit HR) as [Hfit' Hrec].
  pose proof (Read_spec _ _ _ _ HR) as (He' & _).
  assert (bufio.rd_err (csv.r rd') <> EOF) as Hne by congruence.
  destruct err as [e|].
  - destruct (decide (e = EOF)) as [->|Hn].
    + apply Read_EOF in HR. done.
    + rewrite Hskip. split; by apply IH.
  - rewrite Hrec by done. simpl. split; by apply IH.
Qed.

(** X20. With [SkipErrors], a source that delivers some bytes and then
    fails with an error other than EOF is never given up: once the column
    names are found, every read error is skipped like a bad row, and
    neither [Instrument] nor [csv2Json] returns: the loop is still
    running after any number of turns. *)
Theorem skipping_never_ends_on_failing_source (fuel : nat) (o : converter.Options)
    (reader : csv.Reader) (cols : list string) (rd : csv.Reader)
    (stdlog : list log_entry) :
  converter.SkipErrors o = true ->
  io.content (converter.CsvInput o) <> [] ->
  io.at_end (converter.CsvInput o) <> EOF ->
  converter.getCsvReader (converter.CsvInput o) = inr reader ->
  resolved (converter.ColNames o) reader cols rd ->
  converter.Instrument fuel o = Timeout
  /\ converter.csv2Json fuel o stdlog = Timeout.
Proof.
  intros Hskip Hc Hend Hget Hres.
  destruct (getCsvReader_spec (converter.CsvInput o)) as (br & Hget' & _ & _ & Hbr);
    [by left|].
  rewrite Hget' in Hget. injection Hget as <-.
  assert (bufio.rd_err (csv.r rd) <> EOF /\ fits cols rd
          /\ csv.set_FieldsPerRecord (Z.of_nat (length cols)) rd = rd) as (Hne & Hfit & Hset).
  { destruct Hres as [Hov|row rd' Hov HR|row rd' Hov HR].
    - split; [simpl; congruence|]. split; [by right|done].
    - pose proof (Read_spec _ _ _ _ HR) as (He & _ & _ & _ & HF & _).
      specialize (HF eq_refl ltac:(done)).
      split; [simpl in He; congruence|]. split; [by right|].
      by apply set_FieldsPerRecord_id.
    - apply Read_EOF in HR. simpl in HR. congruence. }
  assert (forall o', converter.ColNames o' = cols -> converter.SkipErrors o' = true ->
            converter.buildRecords fuel rd o' = Timeout) as Hbuild.
  { intros o' Hcols Hsk. unfold converter.buildRecords.
    destruct (row_loops_never_end fuel rd o' (converter.Logger o') [] 0 [] Hsk Hne)
      as [-> _]; [by rewrite Hcols|done]. }
  assert (csv2Json_rows fuel rd cols true stdlog 0 [] = Timeout) as Hrows.
  { destruct (row_loops_never_end fuel rd
                (converter.mkOptions cols (converter.CsvInput o) (converter.JsonOutput o)
                   true [])
                [] stdlog 0 [] eq_refl Hne Hfit) as [_ H].
    exact H. }
  split.
  - unfold converter.Instrument. rewrite Hget'.
    destruct Hres as [Hov|row rd' Hov HR|row rd' Hov HR].
    + rewrite decide_False by (by destruct (converter.ColNames o)).
      by rewrite Hbuild.
    + rewrite decide_True by (by rewrite Hov).
      unfold converter.parseColumnNames. rewrite HR. simpl. rewrite Hset.
      by rewrite Hbuild.
    + apply Read_EOF in HR. simpl in HR. congruence.
  - unfold converter.csv2Json, csv2Json_from. rewrite Hget', Hskip.
    destruct Hres as [Hov|row rd' Hov HR|row rd' Hov HR].
    + rewrite decide_False by (by destruct (converter.ColNames o)).
      by rewrite Hrows.
    + rewrite decide_True by (by rewrite Hov). rewrite HR.
      by rewrite Hrows.
    + apply Read_EOF in HR. simpl in HR. congruence.
Qed.

Lemma skipping_never_ends_on_failing_source_witness :
  converter.Instrument 1000
    (converter.mkOptions [] failing_after_two_lines new_buffer true [])
  = Timeout
  /\ converter.csv2Json 1000
       (converter.mkOptions [] failing_after_two_lines new_buffer true []) []
     = Timeout.
Proof.
  apply (skipping_never_ends_on_failing_source 1000
           (converter.mkOptions [] failing_after_two_lines new_buffer true [])
           (reader_of failing_after_two_lines)
           (header_of failing_after_two_lines)
           (after_header failing_after_two_lines) []).
  - reflexivity.
  - discriminate.
  - discriminate.
  - by vm_compute.
  - apply resolved_header; [reflexivity|]. by vm_compute.
Defined.
